(** * LEGATO dashboard (dash/app.js): aggregation and derivation engine

    A shallow embedding of the dashboard script.  The GitHub API is an
    oracle ([Upstream]) whose calls either resolve to a decoded JSON value
    or reject; every [try]/[catch] of the script is a [match] on that
    outcome.  JavaScript strings are [string]s (read as UTF-8; every
    pattern the script searches for is ASCII), arrays are [list]s, the
    [Set] of seen file names is a [gset string], a property that the script
    itself guards ([x || d], [!x], [x && ...]) is an [option].  The HTML
    templates are the presentation sink: each interpolated template is
    modelled as a record (or constructor) carrying exactly the values the
    template interpolates, in the order the script emits them. *)

From Stdlib Require Import ZArith Ascii DecimalString.
From stdpp Require Import base list strings gmap.

Local Open Scope Z_scope.

(** ** JavaScript string primitives used by the script *)

Module Js.

(** [s.startsWith(pre)] *)
Definition startsWith (pre s : string) : bool := String.prefix pre s.

(** [s.includes(pat)] *)
Fixpoint includes (pat s : string) : bool :=
  String.prefix pat s ||
  match s with
  | EmptyString => false
  | String _ s' => includes pat s'
  end.

(** [s.endsWith(suf)] *)
Fixpoint endsWith (suf s : string) : bool :=
  String.eqb suf s ||
  match s with
  | EmptyString => false
  | String _ s' => endsWith suf s'
  end.

Fixpoint drop (n : nat) (s : string) : string :=
  match n, s with
  | O, _ => s
  | S _, EmptyString => EmptyString
  | S n', String _ s' => drop n' s'
  end.

(** [s.replace(pat, rep)] with a string pattern: only the first
    occurrence of [pat] is replaced. *)
Fixpoint replace (pat rep s : string) : string :=
  if String.prefix pat s then rep +:+ drop (String.length pat) s
  else match s with
       | EmptyString => EmptyString
       | String c s' => String c (replace pat rep s')
       end.

(** [s.split(sep)] for a one-character separator. *)
Fixpoint split (sep : ascii) (s : string) : list string :=
  match s with
  | EmptyString => [EmptyString]
  | String c s' =>
      if Ascii.eqb c sep then EmptyString :: split sep s'
      else match split sep s' with
           | [] => [String c EmptyString]
           | seg :: segs => String c seg :: segs
           end
  end.

(** What [s.toLowerCase()] does to the ASCII characters: the letters A-Z
    are mapped to a-z, every other ASCII character is left as it is. *)
Definition asciiLowerChar (c : ascii) : ascii :=
  let n := nat_of_ascii c in
  if ((65 <=? n) && (n <=? 90))%nat then ascii_of_nat (n + 32) else c.

Fixpoint asciiLower (s : string) : string :=
  match s with
  | EmptyString => EmptyString
  | String c s' => String (asciiLowerChar c) (asciiLower s')
  end.

(** [s] holds ASCII characters only. *)
Fixpoint isAscii (s : string) : bool :=
  match s with
  | EmptyString => true
  | String c s' => (nat_of_ascii c <? 128)%nat && isAscii s'
  end.

(** The built-ins whose tables belong to the JavaScript host and not to
    the repository: [s.toLowerCase()], which follows the Unicode case
    mapping (the Kelvin sign lowers to k, some characters lower to two),
    and [date.toLocaleString()], which follows the locale and the time
    zone.  Both are parameters of the script; of [toLowerCase] the
    development uses only what it does to a string of ASCII characters. *)
Class Host := {
  toLowerCase : string -> string;
  toLocaleString : Z -> string;
  toLowerCase_ascii : forall s, isAscii s = true -> toLowerCase s = asciiLower s
}.

(** [x === 'lit'] for a nullable string [x]. *)
Definition strictEq (x : option string) (lit : string) : bool :=
  match x with
  | Some s => String.eqb s lit
  | None => false
  end.

(** [x || d] for a nullable string [x]: null, undefined and the empty
    string are falsy. *)
Definition orElse (x : option string) (d : option string) : option string :=
  match x with
  | Some s => if String.eqb s "" then d else Some s
  | None => d
  end.

(** [String(n)] for an integer. *)
Definition ofZ (n : Z) : string := NilZero.string_of_int (Z.to_int n).

(** A host to run examples on: it lowers the ASCII letters only and
    prints a date as its epoch seconds. *)
Definition asciiHost : Host :=
  {| toLowerCase := asciiLower;
     toLocaleString := fun t => ofZ (t / 1000);
     toLowerCase_ascii := fun s _ => eq_refl |}.

End Js.

(** ** Upstream: the hosting API as seen through [githubFetch] *)

(** Outcome of [await githubFetch(endpoint)]: the decoded body, or the
    thrown [Error] with its message. *)
Inductive Fetched (A : Type) : Type :=
  | Resolved (body : A)
  | Rejected (message : string).
Arguments Resolved {A} body.
Arguments Rejected {A} message.

(** Timestamps are the epoch milliseconds that [new Date(dateString)]
    yields for the ISO date strings of the API. *)
Definition Timestamp := Z.

Record Run := {
  run_id : Z;
  run_name : string;
  run_display_title : option string;
  run_status : option string;
  run_conclusion : option string;
  run_created_at : Timestamp;
  run_html_url : string
}.

Record RunsPage := {
  total_count : option Z;
  workflow_runs : option (list Run)
}.

Record Step := {
  step_name : string;
  step_status : option string;
  step_conclusion : option string
}.

Record Job := {
  job_name : string;
  job_status : option string;
  job_conclusion : option string;
  job_steps : option (list Step)
}.

Record JobsPage := { jobs : option (list Job) }.

Record ContentEntry := {
  entry_name : string;
  entry_type : string
}.

Record Repo := {
  repo_name : string;
  repo_html_url : string;
  repo_updated_at : Timestamp
}.

Record Commit := {
  commit_sha : string;
  commit_author_date : Timestamp
}.

Record ChangedFile := { filename : string }.

Record CommitDetails := { files : option (list ChangedFile) }.

Record Issue := { issue_number : Z }.

(** One field per endpoint the script requests, for the configured
    organisation. *)
Record Upstream := {
  (* /repos/{org}/{repo}/actions/runs?per_page=1 *)
  latest_runs : string -> Fetched RunsPage;
  (* .../actions/workflows/process-transcript.yml/runs?per_page=100 *)
  transcript_run_count : Fetched RunsPage;
  (* .../actions/workflows/process-transcript.yml/runs?per_page=5 *)
  transcript_runs : Fetched RunsPage;
  (* .../actions/runs/{id}/jobs *)
  run_jobs : Z -> Fetched JobsPage;
  (* /repos/{org}/Legato.Library/contents *)
  library_contents : Fetched (list ContentEntry);
  (* /repos/{org}/Legato.Library/contents/{dir} *)
  library_dir : string -> Fetched (list ContentEntry);
  (* /users/{org}/repos?per_page=100 *)
  user_repos : Fetched (list Repo);
  (* /users/{org}/repos?per_page=100&sort=updated *)
  user_repos_updated : Fetched (list Repo);
  (* /repos/{org}/Legato.Library/commits?per_page=10 *)
  library_commits : Fetched (option (list Commit));
  (* /repos/{org}/Legato.Library/commits/{sha} *)
  commit_details : string -> Fetched CommitDetails;
  (* /repos/{org}/{repo}/issues?state=open&per_page=1 *)
  repo_issues : string -> Fetched (list Issue)
}.

(** ** The monitored repositories *)

(** [Object.entries(REPOS)], in insertion order. *)
Definition REPOS : list (string * string) :=
  [ ("conduct", "Legato.Conduct");
    ("library", "Legato.Library");
    ("listen", "Legato.Listen") ].

(** ** timeAgo *)

(** [timeAgo(dateString)]; [now] is the value of [new Date()] read by the
    call. [Math.floor((now - date) / 1000)] is [Z.div], which rounds
    towards minus infinity. *)
Definition timeAgo (now date : Timestamp) : string :=
  let seconds := (now - date) / 1000 in
  if seconds <? 60 then "just now"
  else if seconds <? 3600 then Js.ofZ (seconds / 60) +:+ "m ago"
  else if seconds <? 86400 then Js.ofZ (seconds / 3600) +:+ "h ago"
  else Js.ofZ (seconds / 86400) +:+ "d ago".

(** ** renderSystemStatus *)

Record StatusEntry := {
  entry_repo : string;
  entry_status : string;
  entry_statusText : string
}.

(** The classification of [latestRun = runs.workflow_runs[0]]
    (app.js, lines 64-78): the pair [(status, statusText)]. *)
Definition latestRunStatus (latestRun : option Run) : string * string :=
  match latestRun with
  | None => ("success", "Operational")
  | Some r =>
      if Js.strictEq (run_status r) "in_progress" || Js.strictEq (run_status r) "queued"
      then ("loading", "Running")
      else if Js.strictEq (run_conclusion r) "failure" then ("error", "Failed")
      else if Js.strictEq (run_conclusion r) "cancelled" then ("warning", "Cancelled")
      else ("success", "Operational")
  end.

(** One iteration of the loop over [Object.entries(REPOS)]: the entry
    pushed on [statuses].  A response without [workflow_runs] makes
    [runs.workflow_runs[0]] throw inside the [try]. *)
Definition statusOf (up : Upstream) (repoName : string) : StatusEntry :=
  match latest_runs up repoName with
  | Resolved runs =>
      match workflow_runs runs with
      | Some rs =>
          let st := latestRunStatus (head rs) in
          {| entry_repo := repoName; entry_status := st.1; entry_statusText := st.2 |}
      | None =>
          {| entry_repo := repoName; entry_status := "error";
             entry_statusText := "Unavailable" |}
      end
  | Rejected _ =>
      {| entry_repo := repoName; entry_status := "error";
         entry_statusText := "Unavailable" |}
  end.

Definition renderSystemStatus (up : Upstream) : list StatusEntry :=
  fold_left (fun statuses kv => statuses ++ [statusOf up kv.2]) REPOS [].

(** ** renderStats *)

Record Stats := {
  stat_transcripts : string;
  stat_artifacts : string;
  stat_projects : string
}.

(** [runs.total_count || 0]: an absent count and zero are both falsy. *)
Definition countOrZero (n : option Z) : Z :=
  match n with
  | Some k => if k =? 0 then 0 else k
  | None => 0
  end.

Definition transcriptsStat (up : Upstream) : string :=
  match transcript_run_count up with
  | Resolved runs => Js.ofZ (countOrZero (total_count runs))
  | Rejected _ => "-"
  end.

Definition isArtifactDir (c : ContentEntry) : bool :=
  String.eqb (entry_type c) "dir" && negb (Js.startsWith "." (entry_name c)).

Definition isMarkdown (f : ContentEntry) : bool := Js.endsWith ".md" (entry_name f).

Definition artifactsStat (up : Upstream) : string :=
  match library_contents up with
  | Resolved contents =>
      let artifactDirs := List.filter isArtifactDir contents in
      let artifactCount :=
        fold_left
          (fun count dir =>
             match library_dir up (entry_name dir) with
             | Resolved files => (count + length (List.filter isMarkdown files))%nat
             | Rejected _ => count
             end)
          artifactDirs 0%nat in
      Js.ofZ (Z.of_nat artifactCount)
  | Rejected _ => "-"
  end.

Definition isLabRepo (r : Repo) : bool := Js.startsWith "Lab." (repo_name r).

Definition projectsStat (up : Upstream) : string :=
  match user_repos up with
  | Resolved repos => Js.ofZ (Z.of_nat (length (List.filter isLabRepo repos)))
  | Rejected _ => "-"
  end.

Definition renderStats (up : Upstream) : Stats :=
  {| stat_transcripts := transcriptsStat up;
     stat_artifacts := artifactsStat up;
     stat_projects := projectsStat up |}.

(** ** buildJobTree *)

(** The two templates appended to [html]: a root item for a job and a
    plain item for a step. *)
Inductive TreeItem : Type :=
  | TreeRoot (icon statusClass name : string)
  | TreeChild (icon label : string).

(** The value of [treeHtml]. *)
Inductive TreeHtml : Type :=
  | NoJobDetails
  | CouldNotLoadJobs
  | Tree (items : list TreeItem).

(** The conditional chain of [icon] and [stepIcon]. *)
Definition statusIcon (status conclusion : option string) : string :=
  if Js.strictEq conclusion "success" then "&#x2705;"
  else if Js.strictEq conclusion "failure" then "&#x274C;"
  else if Js.strictEq status "in_progress" then "&#x1F504;"
  else "&#x23F3;".

(** The conditional chain of [statusClass], in [buildJobTree] and in
    [renderTranscriptJobs]. *)
Definition statusClass (status conclusion : option string) : string :=
  if Js.strictEq conclusion "success" then "success"
  else if Js.strictEq conclusion "failure" then "failure"
  else if Js.strictEq status "in_progress" then "running"
  else "pending".

(** The guard of [continue]: boilerplate steps. *)
Definition isBoilerplate {host : Js.Host} (name : string) : bool :=
  Js.includes "checkout" (Js.toLowerCase name)
  || Js.includes "setup python" (Js.toLowerCase name)
  || Js.includes "install" (Js.toLowerCase name).

(** The template appended for a step that is not skipped. *)
Definition stepItem (step : Step) : TreeItem :=
  TreeChild (statusIcon (step_status step) (step_conclusion step)) (step_name step).

(** The template appended for a job. *)
Definition rootItem (job : Job) : TreeItem :=
  TreeRoot (statusIcon (job_status job) (job_conclusion job))
           (statusClass (job_status job) (job_conclusion job))
           (job_name job).

(** One iteration of the loop over [job.steps]. *)
Definition addStep {host : Js.Host} (html : list TreeItem) (step : Step) : list TreeItem :=
  if isBoilerplate (step_name step) then html
  else html ++ [stepItem step].

(** One iteration of the loop over [jobs]. *)
Definition addJob {host : Js.Host} (html : list TreeItem) (job : Job) : list TreeItem :=
  let html := html ++ [rootItem job] in
  match job_steps job with
  | Some ((_ :: _) as steps) => fold_left addStep steps html
  | _ => html
  end.

Definition buildJobTree {host : Js.Host} (jobs : option (list Job)) : TreeHtml :=
  match jobs with
  | None | Some [] => NoJobDetails
  | Some js => Tree (fold_left addJob js [])
  end.

(** ** renderTranscriptJobs *)

Record JobView := {
  jv_title : option string;
  jv_time : string;
  jv_statusClass : string;
  jv_statusText : option string;
  jv_tree : TreeHtml;
  jv_url : string
}.

Inductive JobsSection : Type :=
  | NoTranscriptJobs
  | JobList (views : list JobView)
  | JobsError (message : string).

Definition jobView {host : Js.Host} (up : Upstream) (now : Timestamp) (run : Run)
  : JobView :=
  {| jv_title := Js.orElse (run_display_title run) (Some (run_name run));
     jv_time := timeAgo now (run_created_at run);
     jv_statusClass := statusClass (run_status run) (run_conclusion run);
     jv_statusText := Js.orElse (run_conclusion run) (run_status run);
     jv_tree := match run_jobs up (run_id run) with
                | Resolved page => buildJobTree (jobs page)
                | Rejected _ => CouldNotLoadJobs
                end;
     jv_url := run_html_url run |}.

(** [now i] is the clock reading of the [timeAgo] call for the [i]-th
    run. *)
Definition renderTranscriptJobs {host : Js.Host} (up : Upstream) (now : nat -> Timestamp)
  : JobsSection :=
  match transcript_runs up with
  | Resolved runs =>
      match workflow_runs runs with
      | None | Some [] => NoTranscriptJobs
      | Some rs => JobList (imap (fun i run => jobView up (now i) run) rs)
      end
  | Rejected message => JobsError ("Error loading jobs: " +:+ message)
  end.

(** ** renderLibraryArtifacts *)

Record Artifact := {
  art_name : string;
  art_category : string;
  art_path : string;
  art_date : Timestamp
}.

(** The two locals [artifacts] and [seenFiles]. *)
Record Scan := {
  artifacts : list Artifact;
  seenFiles : gset string
}.

(** The guard of the inner [if] (app.js, lines 266-268). *)
Definition admitted (seen : gset string) (path : string) : bool :=
  Js.endsWith ".md" path
  && negb (Js.includes "README" path)
  && negb (bool_decide (path ∈ seen)).

(** The object pushed on [artifacts] (app.js, lines 273-282). *)
Definition artifactOf (path : string) (date : Timestamp) : Artifact :=
  let parts := Js.split "/" path in
  let category := if (1 <? length parts)%nat then default "" (head parts) else "unknown" in
  let name := Js.replace ".md" "" (List.last parts "") in
  {| art_name := name; art_category := category; art_path := path; art_date := date |}.

(** [artifacts.length >= 5], the guard of both [break]s. *)
Definition capReached (arts : list Artifact) : bool := (5 <=? length arts)%nat.
Arguments capReached : simpl never.

(** The loop over [details.files || []], with its [break]. *)
Fixpoint scanFiles (date : Timestamp) (fs : list ChangedFile) (st : Scan) : Scan :=
  match fs with
  | [] => st
  | file :: rest =>
      if admitted (seenFiles st) (filename file) then
        let st' := {| artifacts := artifacts st ++ [artifactOf (filename file) date];
                      seenFiles := {[ filename file ]} ∪ seenFiles st |} in
        if capReached (artifacts st') then st' else scanFiles date rest st'
      else scanFiles date rest st
  end.

(** The loop over [commits], with its [break] and its [try]/[catch]. *)
Fixpoint scanCommits (up : Upstream) (commits : list Commit) (st : Scan) : Scan :=
  match commits with
  | [] => st
  | commit :: rest =>
      if capReached (artifacts st) then st
      else match commit_details up (commit_sha commit) with
           | Resolved details =>
               scanCommits up rest
                 (scanFiles (commit_author_date commit) (default [] (files details)) st)
           | Rejected _ => scanCommits up rest st
           end
  end.

(** The array [artifacts] when the loops are over. *)
Definition collectArtifacts (up : Upstream) (commits : list Commit) : list Artifact :=
  artifacts (scanCommits up commits {| artifacts := []; seenFiles := ∅ |}).

Record ArtifactView := {
  av_name : string;
  av_time : string;
  av_category : string
}.

Inductive ArtifactsSection : Type :=
  | NoArtifacts
  | ArtifactList (views : list ArtifactView)
  | ArtifactsError (message : string).

Definition artifactView (now : Timestamp) (a : Artifact) : ArtifactView :=
  {| av_name := art_name a;
     av_time := timeAgo now (art_date a);
     av_category := art_category a |}.

Definition renderLibraryArtifacts (up : Upstream) (now : nat -> Timestamp)
  : ArtifactsSection :=
  match library_commits up with
  | Resolved None | Resolved (Some []) => NoArtifacts
  | Resolved (Some commits) =>
      match collectArtifacts up commits with
      | [] => NoArtifacts
      | arts => ArtifactList (imap (fun i a => artifactView (now i) a) arts)
      end
  | Rejected message => ArtifactsError ("Error: " +:+ message)
  end.

(** ** renderLabProjects *)

Record Project := {
  proj_name : string;
  proj_fullName : string;
  proj_type : string;
  proj_status : string;
  proj_url : string;
  proj_updated : Timestamp
}.

(** The object pushed on [projects] for one Lab repository. *)
Definition projectOf (up : Upstream) (repo : Repo) : Project :=
  let isChord := Js.includes ".Chord" (repo_name repo) in
  let isNote := Js.includes ".Note" (repo_name repo) in
  let projectType := if isChord then "chord" else if isNote then "note" else "unknown" in
  let hasOpenIssues :=
    match repo_issues up (repo_name repo) with
    | Resolved issues => (0 <? length issues)%nat
    | Rejected _ => false
    end in
  {| proj_name := Js.replace "Lab." "" (repo_name repo);
     proj_fullName := repo_name repo;
     proj_type := projectType;
     proj_status := if hasOpenIssues then "waiting" else "active";
     proj_url := repo_html_url repo;
     proj_updated := repo_updated_at repo |}.

(** [repos.filter(r => r.name.startsWith('Lab.')).slice(0, 5)] *)
Definition labReposOf (repos : list Repo) : list Repo :=
  take 5 (List.filter isLabRepo repos).

(** The array [projects] when the loop is over. *)
Definition collectProjects (up : Upstream) (labRepos : list Repo) : list Project :=
  fold_left (fun projects repo => projects ++ [projectOf up repo]) labRepos [].

Record ProjectView := {
  pv_url : string;
  pv_name : string;
  pv_time : string;
  pv_type : string;
  pv_status : string;
  pv_badge : string
}.

Inductive ProjectsSection : Type :=
  | NoLabProjects
  | ProjectList (views : list ProjectView)
  | ProjectsError (message : string).

Definition projectView (now : Timestamp) (p : Project) : ProjectView :=
  {| pv_url := proj_url p;
     pv_name := proj_name p;
     pv_time := timeAgo now (proj_updated p);
     pv_type := proj_type p;
     pv_status := proj_status p;
     pv_badge := if String.eqb (proj_status p) "waiting" then "awaiting" else "active" |}.

Definition renderLabProjects (up : Upstream) (now : nat -> Timestamp) : ProjectsSection :=
  match user_repos_updated up with
  | Resolved repos =>
      match labReposOf repos with
      | [] => NoLabProjects
      | labRepos =>
          ProjectList (imap (fun i p => projectView (now i) p) (collectProjects up labRepos))
      end
  | Rejected message => ProjectsError ("Error: " +:+ message)
  end.

(** ** refreshAll *)

(** The readings of [new Date()] during one pass: one per [timeAgo] call
    of each section, indexed by the position of the rendered item, and
    the final one behind [last-updated]. *)
Record Clock := {
  jobs_now : nat -> Timestamp;
  artifacts_now : nat -> Timestamp;
  projects_now : nat -> Timestamp;
  finished_at : Timestamp
}.

(** What one pass writes: the five sections and the [last-updated]
    marker (the [Date] value behind [toLocaleString()]). *)
Record Dashboard := {
  system_status : list StatusEntry;
  stats : Stats;
  transcript_jobs : JobsSection;
  library_artifacts : ArtifactsSection;
  lab_projects : ProjectsSection;
  last_updated : Timestamp
}.

Definition refreshAll {host : Js.Host} (up : Upstream) (clock : Clock) : Dashboard :=
  {| system_status := renderSystemStatus up;
     stats := renderStats up;
     transcript_jobs := renderTranscriptJobs up (jobs_now clock);
     library_artifacts := renderLibraryArtifacts up (artifacts_now clock);
     lab_projects := renderLabProjects up (projects_now clock);
     last_updated := finished_at clock |}.

(** ** The page a pass writes on *)

(** What an element of the page holds after an assignment to its
    [innerHTML] or [textContent]. *)
Inductive Content : Type :=
  | StatusBoard (entries : list StatusEntry)
  | Counter (text : string)
  | Jobs (section : JobsSection)
  | Artifacts (section : ArtifactsSection)
  | Projects (section : ProjectsSection)
  | Stamp (text : string).

(** [element.innerHTML = content] (or [textContent]) for the element
    with the given id: the page is a map from element ids to contents. *)
Definition assign (page : gmap string Content) (w : string * Content)
  : gmap string Content :=
  <[ w.1 := w.2 ]> page.

(** The assignments of the five renderings that [refreshAll] awaits,
    each to the element it looks up by id.  The renderings run
    interleaved under [Promise.all]; they assign different elements, so
    the page they leave is the same in whatever order the assignments
    land. *)
Definition sectionWrites {host : Js.Host} (up : Upstream) (clock : Clock)
  : list (string * Content) :=
  let written := refreshAll up clock in
  [ ("system-status", StatusBoard (system_status written));
    ("stat-transcripts", Counter (stat_transcripts (stats written)));
    ("stat-artifacts", Counter (stat_artifacts (stats written)));
    ("stat-projects", Counter (stat_projects (stats written)));
    ("transcript-jobs", Jobs (transcript_jobs written));
    ("library-artifacts", Artifacts (library_artifacts written));
    ("lab-projects", Projects (lab_projects written)) ].

(** One pass of [refreshAll] on a page: the marker Refreshing..., the
    assignments of the sections, and the stamp
    [new Date().toLocaleString()]. *)
Definition refreshPage {host : Js.Host} (up : Upstream) (clock : Clock)
    (page : gmap string Content) : gmap string Content :=
  let page := <[ "last-updated" := Stamp "Refreshing..." ]> page in
  let page := fold_left assign (sectionWrites up clock) page in
  <[ "last-updated" := Stamp (Js.toLocaleString (last_updated (refreshAll up clock))) ]> page.

(** The ids of the elements a pass assigns. *)
Definition targets : gset string :=
  {[ "last-updated"; "system-status"; "stat-transcripts"; "stat-artifacts";
     "stat-projects"; "transcript-jobs"; "library-artifacts"; "lab-projects" ]}.

(** ** A content without its ages, and the ages of a content *)

Definition withoutJobAge (v : JobView) : JobView :=
  {| jv_title := jv_title v; jv_time := ""; jv_statusClass := jv_statusClass v;
     jv_statusText := jv_statusText v; jv_tree := jv_tree v; jv_url := jv_url v |}.

Definition withoutArtifactAge (v : ArtifactView) : ArtifactView :=
  {| av_name := av_name v; av_time := ""; av_category := av_category v |}.

Definition withoutProjectAge (v : ProjectView) : ProjectView :=
  {| pv_url := pv_url v; pv_name := pv_name v; pv_time := ""; pv_type := pv_type v;
     pv_status := pv_status v; pv_badge := pv_badge v |}.

Definition withoutJobAges (section : JobsSection) : JobsSection :=
  match section with
  | JobList views => JobList (withoutJobAge <$> views)
  | _ => section
  end.

Definition withoutArtifactAges (section : ArtifactsSection) : ArtifactsSection :=
  match section with
  | ArtifactList views => ArtifactList (withoutArtifactAge <$> views)
  | _ => section
  end.

Definition withoutProjectAges (section : ProjectsSection) : ProjectsSection :=
  match section with
  | ProjectList views => ProjectList (withoutProjectAge <$> views)
  | _ => section
  end.

(** A content with every relative age, and the stamp, blanked. *)
Definition withoutAges (content : Content) : Content :=
  match content with
  | Jobs section => Jobs (withoutJobAges section)
  | Artifacts section => Artifacts (withoutArtifactAges section)
  | Projects section => Projects (withoutProjectAges section)
  | Stamp _ => Stamp ""
  | _ => content
  end.

(** The relative ages, or the stamp, that a content shows. *)
Definition agesOf (content : Content) : list string :=
  match content with
  | Jobs (JobList views) => jv_time <$> views
  | Artifacts (ArtifactList views) => av_time <$> views
  | Projects (ProjectList views) => pv_time <$> views
  | Stamp text => [text]
  | _ => []
  end.

(** ** The records behind the sections *)

(** [runs.workflow_runs], the array [artifacts] and the array [projects]
    that the three lists are rendered from; they carry the dates that
    the upstream gave. *)
Definition listedRuns (up : Upstream) : list Run :=
  match transcript_runs up with
  | Resolved runs => default [] (workflow_runs runs)
  | Rejected _ => []
  end.

Definition listedArtifacts (up : Upstream) : list Artifact :=
  match library_commits up with
  | Resolved (Some commits) => collectArtifacts up commits
  | _ => []
  end.

Definition listedProjects (up : Upstream) : list Project :=
  match user_repos_updated up with
  | Resolved repos => collectProjects up (labReposOf repos)
  | Rejected _ => []
  end.

(** * Vocabulary of the properties *)

(** [s] contains [pat] as a contiguous substring. *)
Definition Contains (pat s : string) : Prop :=
  exists pre post, s = pre +:+ pat +:+ post.

(** The record fields a classification reads. *)
Definition runWith (status conclusion : option string) : Run :=
  {| run_id := 0; run_name := ""; run_display_title := None;
     run_status := status; run_conclusion := conclusion;
     run_created_at := 0; run_html_url := "" |}.

(** The values of [status] and of [conclusion] in the sixteen
    combinations. *)
Definition statusValues : list (option string) :=
  [None; Some "in_progress"; Some "queued"; Some "completed"].

Definition conclusionValues : list (option string) :=
  [None; Some "success"; Some "failure"; Some "cancelled"].

(** How a job-level class reads in the run-level vocabulary: [pending]
    has no counterpart there. *)
Definition kindOfClass (class : string) : option string :=
  if String.eqb class "success" then Some "success"
  else if String.eqb class "failure" then Some "error"
  else if String.eqb class "running" then Some "loading"
  else None.

(** The file names of the changed files of a commit, as the walk sees
    them: none when the detail request rejects. *)
Definition changedFiles (up : Upstream) (commit : Commit) : list string :=
  match commit_details up (commit_sha commit) with
  | Resolved details => map filename (default [] (files details))
  | Rejected _ => []
  end.

(** The changed files of a commit window in walk order, each with the
    authorship date of its commit. *)
Definition visited (up : Upstream) (commits : list Commit) : list (string * Timestamp) :=
  flat_map (fun c => map (fun path => (path, commit_author_date c)) (changedFiles up c))
           commits.

(** The two loops of [renderLibraryArtifacts] as one loop over the
    visited files. *)
Fixpoint scanEntries (entries : list (string * Timestamp)) (st : Scan) : Scan :=
  match entries with
  | [] => st
  | (path, date) :: rest =>
      if capReached (artifacts st) then st
      else if admitted (seenFiles st) path then
        scanEntries rest
          {| artifacts := artifacts st ++ [artifactOf path date];
             seenFiles := {[ path ]} ∪ seenFiles st |}
      else scanEntries rest st
  end.

(** What the walk has established after the entries [done]. *)
Record ScanInv (done : list (string * Timestamp)) (st : Scan) : Prop := {
  inv_seen : forall p, p ∈ seenFiles st <-> p ∈ map art_path (artifacts st);
  inv_nodup : NoDup (map art_path (artifacts st));
  inv_first : forall a, a ∈ artifacts st ->
    exists before after,
      done = before ++ (art_path a, art_date a) :: after
      /\ art_path a ∉ map fst before;
  inv_covered : forall p, p ∈ map fst done ->
    Js.endsWith ".md" p = true -> Js.includes "README" p = false ->
    p ∈ seenFiles st
}.

(** [s] without its extension [ext], when it ends with it. *)
Definition stripExtension (ext s : string) : string :=
  if Js.endsWith ext s
  then String.substring 0 (String.length s - String.length ext) s
  else s.

(** Two passes read the same values off the clock. *)
Definition sameReadings (c1 c2 : Clock) : Prop :=
  (forall i, jobs_now c1 i = jobs_now c2 i)
  /\ (forall i, artifacts_now c1 i = artifacts_now c2 i)
  /\ (forall i, projects_now c1 i = projects_now c2 i)
  /\ finished_at c1 = finished_at c2.

(** ** Sample upstreams *)

(** Every request rejects. *)
Definition offline : Upstream :=
  {| latest_runs := fun _ => Rejected "Failed to fetch";
     transcript_run_count := Rejected "Failed to fetch";
     transcript_runs := Rejected "Failed to fetch";
     run_jobs := fun _ => Rejected "Failed to fetch";
     library_contents := Rejected "Failed to fetch";
     library_dir := fun _ => Rejected "Failed to fetch";
     user_repos := Rejected "Failed to fetch";
     user_repos_updated := Rejected "Failed to fetch";
     library_commits := Rejected "Failed to fetch";
     commit_details := fun _ => Rejected "Failed to fetch";
     repo_issues := fun _ => Rejected "Failed to fetch" |}.

Definition withLatestRuns (f : string -> Fetched RunsPage) (up : Upstream) : Upstream :=
  {| latest_runs := f;
     transcript_run_count := transcript_run_count up;
     transcript_runs := transcript_runs up;
     run_jobs := run_jobs up;
     library_contents := library_contents up;
     library_dir := library_dir up;
     user_repos := user_repos up;
     user_repos_updated := user_repos_updated up;
     library_commits := library_commits up;
     commit_details := commit_details up;
     repo_issues := repo_issues up |}.

Definition withRunCount (r : Fetched RunsPage) (up : Upstream) : Upstream :=
  {| latest_runs := latest_runs up;
     transcript_run_count := r;
     transcript_runs := transcript_runs up;
     run_jobs := run_jobs up;
     library_contents := library_contents up;
     library_dir := library_dir up;
     user_repos := user_repos up;
     user_repos_updated := user_repos_updated up;
     library_commits := library_commits up;
     commit_details := commit_details up;
     repo_issues := repo_issues up |}.

Definition withCommits (cs : Fetched (option (list Commit)))
    (d : string -> Fetched CommitDetails) (up : Upstream) : Upstream :=
  {| latest_runs := latest_runs up;
     transcript_run_count := transcript_run_count up;
     transcript_runs := transcript_runs up;
     run_jobs := run_jobs up;
     library_contents := library_contents up;
     library_dir := library_dir up;
     user_repos := user_repos up;
     user_repos_updated := user_repos_updated up;
     library_commits := cs;
     commit_details := d;
     repo_issues := repo_issues up |}.

Definition withRepos (rs : Fetched (list Repo))
    (issues : string -> Fetched (list Issue)) (up : Upstream) : Upstream :=
  {| latest_runs := latest_runs up;
     transcript_run_count := transcript_run_count up;
     transcript_runs := transcript_runs up;
     run_jobs := run_jobs up;
     library_contents := library_contents up;
     library_dir := library_dir up;
     user_repos := user_repos up;
     user_repos_updated := rs;
     library_commits := library_commits up;
     commit_details := commit_details up;
     repo_issues := issues |}.

(** Conduct's latest run failed, Library's request rejects, Listen has
    no run yet. *)
Definition libraryDown : Upstream :=
  withLatestRuns
    (fun repoName =>
       if String.eqb repoName "Legato.Library" then Rejected "GitHub API error: 502"
       else if String.eqb repoName "Legato.Conduct" then
         Resolved {| total_count := Some 1;
                     workflow_runs := Some [runWith (Some "completed") (Some "failure")] |}
       else Resolved {| total_count := Some 0; workflow_runs := Some [] |})
    offline.

(** A window of three commits that all change [notes/idea.md]; the
    newest also changes the index and a second note. *)
Definition threeCommits : list Commit :=
  [ {| commit_sha := "c3"; commit_author_date := 3000 |};
    {| commit_sha := "c2"; commit_author_date := 2000 |};
    {| commit_sha := "c1"; commit_author_date := 1000 |} ].

Definition overlapping : Upstream :=
  withCommits (Resolved (Some threeCommits))
    (fun sha =>
       if String.eqb sha "c3" then
         Resolved {| files := Some [ {| filename := "notes/idea.md" |};
                                     {| filename := "README.md" |};
                                     {| filename := "concepts/graph.md" |} ] |}
       else Resolved {| files := Some [ {| filename := "notes/idea.md" |} ] |})
    offline.

(** One commit that changes [notes/readme.md]. *)
Definition lowercaseReadme : Upstream :=
  withCommits (Resolved (Some [ {| commit_sha := "c1"; commit_author_date := 1000 |} ]))
    (fun _ => Resolved {| files := Some [ {| filename := "notes/readme.md" |} ] |})
    offline.

(** One Lab repository, [Lab.Chord.Widget], last updated at time 0, with
    the given outcome of its open-issues request. *)
Definition widget : Repo :=
  {| repo_name := "Lab.Chord.Widget";
     repo_html_url := "https://github.com/bobbyhiddn/Lab.Chord.Widget";
     repo_updated_at := 0 |}.

Definition widgetOnly (issues : Fetched (list Issue)) : Upstream :=
  withRepos (Resolved [widget]) (fun _ => issues) offline.

(** A pass whose every clock reading is [t]. *)
Definition readingsAt (t : Timestamp) : Clock :=
  {| jobs_now := fun _ => t; artifacts_now := fun _ => t;
     projects_now := fun _ => t; finished_at := t |}.

(** A job whose steps are Checkout code, Build and Run tests, concluded
    in success, success and failure. *)
Definition buildAndTest : Job :=
  {| job_name := "process";
     job_status := Some "completed";
     job_conclusion := Some "failure";
     job_steps := Some
       [ {| step_name := "Checkout code"; step_status := Some "completed";
            step_conclusion := Some "success" |};
         {| step_name := "Build"; step_status := Some "completed";
            step_conclusion := Some "success" |};
         {| step_name := "Run tests"; step_status := Some "completed";
            step_conclusion := Some "failure" |} ] |}.

(** The steps of a job that [buildJobTree] keeps. *)
Definition keptSteps {host : Js.Host} (job : Job) : list Step :=
  List.filter (fun step => negb (isBoilerplate (step_name step)))
              (default [] (job_steps job)).

(** * getConfig and githubFetch *)

Record Config := {
  org : string;
  token : option string
}.

(** [getConfig()]: [orgInput] and [tokenInput] are the values of the two
    input elements; [value || d] takes [d] for the empty string. *)
Definition getConfig (orgInput tokenInput : string) : Config :=
  {| org := if String.eqb orgInput "" then "bobbyhiddn" else orgInput;
     token := if String.eqb tokenInput "" then None else Some tokenInput |}.

(** What [fetch] is called with: the URL and the [headers] object. *)
Record Request := {
  req_url : string;
  req_headers : gmap string string
}.

(** What [fetch] resolves to: [response.ok], [response.status] and the
    outcome of [response.json()]. *)
Record Response (A : Type) := {
  resp_ok : bool;
  resp_status : Z;
  resp_json : Fetched A
}.
Arguments resp_ok {A} _.
Arguments resp_status {A} _.
Arguments resp_json {A} _.

(** The [headers] object of [githubFetch]: [if (config.token)] is false
    for null and for the empty string. *)
Definition headersOf (config : Config) : gmap string string :=
  let headers : gmap string string := {[ "Accept" := "application/vnd.github+json" ]} in
  match token config with
  | Some t => if String.eqb t "" then headers
              else <[ "Authorization" := "Bearer " +:+ t ]> headers
  | None => headers
  end.

Definition requestOf (config : Config) (endpoint : string) : Request :=
  {| req_url := "https://api.github.com" +:+ endpoint;
     req_headers := headersOf config |}.

(** [githubFetch(endpoint)] over a transport [fetch], which rejects on a
    network failure. *)
Definition githubFetch {A : Type} (fetch : Request -> Fetched (Response A))
    (config : Config) (endpoint : string) : Fetched A :=
  match fetch (requestOf config endpoint) with
  | Resolved response =>
      if negb (resp_ok response)
      then Rejected ("GitHub API error: " +:+ Js.ofZ (resp_status response))
      else resp_json response
  | Rejected message => Rejected message
  end.

(** * Page load: the saved organisation *)

(** [localStorage] is a map from keys to strings.  The value of the org
    input after the load handler ran:
    [localStorage.getItem('legato-org')] replaces the value the page came
    with when it is there and not empty. *)
Definition loadSavedOrg (storage : gmap string string) (orgInput : string) : string :=
  match storage !! "legato-org" with
  | Some savedOrg => if String.eqb savedOrg "" then orgInput else savedOrg
  | None => orgInput
  end.

(** The change handler of the org input:
    [localStorage.setItem('legato-org', e.target.value)]. *)
Definition saveOrg (storage : gmap string string) (value : string) : gmap string string :=
  <[ "legato-org" := value ]> storage.

(** * Vocabulary of the further properties *)

(** The items of a tree that stand for jobs. *)
Definition isRoot (item : TreeItem) : bool :=
  match item with
  | TreeRoot _ _ _ => true
  | TreeChild _ _ => false
  end.

(** The glyph that goes with a job-level class. *)
Definition iconOfClass (class : string) : string :=
  if String.eqb class "success" then "&#x2705;"
  else if String.eqb class "failure" then "&#x274C;"
  else if String.eqb class "running" then "&#x1F504;"
  else "&#x23F3;".

(** The two path tests of the admission guard. *)
Definition eligible (path : string) : bool :=
  Js.endsWith ".md" path && negb (Js.includes "README" path).

(** The entries whose path is new, each path at its first occurrence,
    in order. *)
Fixpoint firstEntries (seen : gset string) (entries : list (string * Timestamp))
  : list (string * Timestamp) :=
  match entries with
  | [] => []
  | (path, date) :: rest =>
      if bool_decide (path ∈ seen) then firstEntries seen rest
      else (path, date) :: firstEntries ({[ path ]} ∪ seen) rest
  end.

(** The knowledge documents of a Library directory, none when its
    listing rejects. *)
Definition documentsIn (up : Upstream) (dir : ContentEntry) : list ContentEntry :=
  match library_dir up (entry_name dir) with
  | Resolved files => List.filter isMarkdown files
  | Rejected _ => []
  end.

(** ** Further sample data *)

(** The commit [c2] of the window of three cannot be fetched. *)
Definition middleCommitDown : Upstream :=
  withCommits (Resolved (Some threeCommits))
    (fun sha =>
       if String.eqb sha "c2" then Rejected "GitHub API error: 500"
       else commit_details overlapping sha)
    offline.

(** A Library with two category directories, a hidden directory and a
    top-level file; the listing of [concepts] rejects. *)
Definition smallLibrary : Upstream :=
  {| latest_runs := latest_runs offline;
     transcript_run_count := transcript_run_count offline;
     transcript_runs := transcript_runs offline;
     run_jobs := run_jobs offline;
     library_contents :=
       Resolved [ {| entry_name := "notes"; entry_type := "dir" |};
                  {| entry_name := ".github"; entry_type := "dir" |};
                  {| entry_name := "concepts"; entry_type := "dir" |};
                  {| entry_name := "README.md"; entry_type := "file" |} ];
     library_dir := fun dir =>
       if String.eqb dir "notes" then
         Resolved [ {| entry_name := "idea.md"; entry_type := "file" |};
                    {| entry_name := "sketch.png"; entry_type := "file" |};
                    {| entry_name := "plan.md"; entry_type := "file" |} ]
       else Rejected "GitHub API error: 500";
     user_repos := user_repos offline;
     user_repos_updated := user_repos_updated offline;
     library_commits := library_commits offline;
     commit_details := commit_details offline;
     repo_issues := repo_issues offline |}.

(** Two transcript runs; the job details of the second cannot be
    fetched. *)
Definition firstRun : Run :=
  {| run_id := 11; run_name := "Process Transcript"; run_display_title := Some "standup";
     run_status := Some "completed"; run_conclusion := Some "success";
     run_created_at := 0; run_html_url := "https://github.com/runs/11" |}.

Definition secondRun : Run :=
  {| run_id := 12; run_name := "Process Transcript"; run_display_title := None;
     run_status := Some "in_progress"; run_conclusion := None;
     run_created_at := 0; run_html_url := "https://github.com/runs/12" |}.

Definition twoRuns : Upstream :=
  {| latest_runs := latest_runs offline;
     transcript_run_count := transcript_run_count offline;
     transcript_runs :=
       Resolved {| total_count := Some 2; workflow_runs := Some [firstRun; secondRun] |};
     run_jobs := fun id =>
       if id =? 11 then Resolved {| jobs := Some [buildAndTest] |}
       else Rejected "GitHub API error: 404";
     library_contents := library_contents offline;
     library_dir := library_dir offline;
     user_repos := user_repos offline;
     user_repos_updated := user_repos_updated offline;
     library_commits := library_commits offline;
     commit_details := commit_details offline;
     repo_issues := repo_issues offline |}.

(** A transport that answers every request with the given status and an
    empty run page. *)
Definition answering (ok : bool) (status : Z) (_ : Request) : Fetched (Response RunsPage) :=
  Resolved {| resp_ok := ok; resp_status := status;
              resp_json := Resolved {| total_count := Some 0; workflow_runs := Some [] |} |}.

(** * Vocabulary of case-insensitive search *)

(** [c] reads as the pattern character [p] when case is ignored: it is
    [p], or it is a capital letter A-Z and [p] is its small letter. *)
Definition sameLetter (c p : ascii) : Prop :=
  c = p
  \/ ((65 <= nat_of_ascii c <= 90)%nat /\ nat_of_ascii p = (nat_of_ascii c + 32)%nat).

(** [s] reads as [pat], character by character, when case is ignored. *)
Fixpoint sameLetters (s pat : string) : Prop :=
  match s, pat with
  | EmptyString, EmptyString => True
  | String c s', String p pat' => sameLetter c p /\ sameLetters s' pat'
  | _, _ => False
  end.

(** [s] contains [pat] case-insensitively: some contiguous part of [s]
    reads as [pat] when case is ignored. *)
Definition ContainsIgnoringCase (pat s : string) : Prop :=
  exists pre mid post, s = pre +:+ mid +:+ post /\ sameLetters mid pat.

(** [s] holds no capital letter A-Z. *)
Fixpoint noCapitals (s : string) : bool :=
  match s with
  | EmptyString => true
  | String c s' =>
      ((nat_of_ascii c <? 65) || (90 <? nat_of_ascii c))%nat && noCapitals s'
  end.

(** * Facts about the string primitives *)

Section StringFacts.

Implicit Types s pat pre post suf : string.

Lemma append_nil s : "" +:+ s = s.
Proof. reflexivity. Qed.

Lemma append_cons (c : ascii) s1 s2 : String c s1 +:+ s2 = String c (s1 +:+ s2).
Proof. reflexivity. Qed.

Lemma prefix_append pat s :
  String.prefix pat s = true <-> exists post, s = pat +:+ post.
Proof.
  revert s. induction pat as [|a pat IH]; intros s.
  - destruct s; simpl; split; eauto.
  - destruct s as [|b s]; simpl.
    + split; [discriminate | intros [post H]; discriminate].
    + destruct (ascii_dec a b) as [->|Hne].
      * rewrite IH. split; intros [post H]; exists post;
          rewrite append_cons in *; congruence.
      * split; [discriminate | intros [post H]; rewrite append_cons in H; congruence].
Qed.

Lemma includes_nil pat : Js.includes pat "" = String.prefix pat "".
Proof. simpl. apply orb_false_r. Qed.

Lemma includes_cons pat (c : ascii) s :
  Js.includes pat (String c s) = String.prefix pat (String c s) || Js.includes pat s.
Proof. reflexivity. Qed.

Lemma includes_Contains pat s : Js.includes pat s = true <-> Contains pat s.
Proof.
  unfold Contains. induction s as [|c s IH].
  - rewrite includes_nil, prefix_append. split.
    + intros [post H]. by exists "", post.
    + intros (pre & post & H). destruct pre; [eauto | discriminate].
  - rewrite includes_cons, orb_true_iff, IH, prefix_append. split.
    + intros [[post H] | (pre & post & H)].
      * by exists "", post.
      * exists (String c pre), post. by rewrite append_cons, H.
    + intros (pre & post & H). destruct pre as [|c' pre].
      * left. eauto.
      * right. exists pre, post. rewrite append_cons in H. congruence.
Qed.

Lemma includes_false pat s : Js.includes pat s = false <-> ~ Contains pat s.
Proof. rewrite <- includes_Contains. by destruct (Js.includes pat s). Qed.

Lemma endsWith_nil suf : Js.endsWith suf "" = String.eqb suf "".
Proof. simpl. apply orb_false_r. Qed.

Lemma endsWith_cons suf (c : ascii) s :
  Js.endsWith suf (String c s) = String.eqb suf (String c s) || Js.endsWith suf s.
Proof. reflexivity. Qed.

Lemma endsWith_append suf s :
  Js.endsWith suf s = true <-> exists pre, s = pre +:+ suf.
Proof.
  induction s as [|c s IH].
  - rewrite endsWith_nil, String.eqb_eq. split.
    + intros ->. by exists "".
    + intros [pre H]. destruct pre; [done | discriminate].
  - rewrite endsWith_cons, orb_true_iff, IH, String.eqb_eq. split.
    + intros [-> | [pre ->]]; [by exists "" | by exists (String c pre)].
    + intros [pre H]. destruct pre as [|c' pre].
      * by left.
      * right. exists pre. rewrite append_cons in H. congruence.
Qed.

Lemma strictEq_Some (x : option string) lit : Js.strictEq x lit = true <-> x = Some lit.
Proof.
  destruct x as [s|]; simpl; [|done].
  rewrite String.eqb_eq. split; congruence.
Qed.

Lemma strictEq_false (x : option string) lit : Js.strictEq x lit = false <-> x <> Some lit.
Proof. rewrite <- strictEq_Some. by destruct (Js.strictEq x lit). Qed.

(** [String(n)] is never the bare minus sign. *)
Lemma ofZ_not_dash (n : Z) : Js.ofZ n <> "-".
Proof.
  unfold Js.ofZ. destruct n as [|p|p]; simpl.
  - discriminate.
  - unfold NilZero.string_of_uint.
    destruct (Pos.to_uint p); simpl; discriminate.
  - unfold NilZero.string_of_uint.
    destruct (Pos.to_uint p); simpl; discriminate.
Qed.

(** ** [split] on a separator *)

Lemma Contains_cons pat (c : ascii) s : Contains pat s -> Contains pat (String c s).
Proof. intros (pre & post & ->). by exists (String c pre), post. Qed.

Lemma Contains_head (c : ascii) s : Contains (String c "") (String c s).
Proof. by exists "", s. Qed.

Lemma split_nonempty (sep : ascii) s : Js.split sep s <> [].
Proof.
  destruct s as [|c s]; simpl; [done |].
  destruct (Ascii.eqb c sep); [done |]. by destruct (Js.split sep s).
Qed.

(** A string without the separator is one segment. *)
Lemma split_no_sep (sep : ascii) s :
  ~ Contains (String sep "") s -> Js.split sep s = [s].
Proof.
  induction s as [|c s IH]; intros Hno; simpl; [done |].
  destruct (Ascii.eqb_spec c sep) as [-> | Hne].
  - destruct Hno. apply Contains_head.
  - rewrite IH; [done |]. intros H. by apply Hno, Contains_cons.
Qed.

(** The first segment ends at the first separator. *)
Lemma split_first_segment (sep : ascii) dir rest :
  ~ Contains (String sep "") dir ->
  Js.split sep (dir +:+ String sep rest) = dir :: Js.split sep rest.
Proof.
  induction dir as [|c dir IH]; intros Hno.
  - rewrite append_nil. simpl. by rewrite Ascii.eqb_refl.
  - rewrite append_cons. simpl.
    destruct (Ascii.eqb_spec c sep) as [-> | Hne].
    + destruct Hno. apply Contains_head.
    + rewrite IH; [done |]. intros H. by apply Hno, Contains_cons.
Qed.

(** The last segment starts after the last separator. *)
Lemma split_last_segment (sep : ascii) pre seg :
  ~ Contains (String sep "") seg ->
  exists segs, Js.split sep (pre +:+ String sep seg) = segs ++ [seg] /\ segs <> [].
Proof.
  intros Hno. induction pre as [|c pre (segs & IH & Hsegs)].
  - exists [""]. rewrite append_nil. simpl.
    by rewrite Ascii.eqb_refl, split_no_sep.
  - rewrite append_cons. simpl. rewrite IH.
    destruct (Ascii.eqb c sep).
    + by exists ("" :: segs).
    + destruct segs as [|seg0 segs]; [done |]. by exists (String c seg0 :: segs).
Qed.

(** ** [replace] of an extension *)

(** When [.md] occurs in a segment only as its ending, replacing its
    first occurrence strips the ending. *)
Lemma replace_md_suffix base :
  ~ Contains ".md" base -> Js.replace ".md" "" (base +:+ ".md") = base.
Proof.
  induction base as [|c base IH]; intros Hno; [done |].
  rewrite append_cons.
  assert (Hhead : String.prefix ".md" (String c (base +:+ ".md")) = false).
  { destruct (String.prefix ".md" (String c (base +:+ ".md"))) eqn:Hpre; [| done].
    destruct Hno.
    apply prefix_append in Hpre as [post Hpost].
    destruct base as [|c1 [|c2 tl]];
      rewrite ?append_cons, ?append_nil in Hpost; try discriminate.
    injection Hpost as -> -> -> Hpost. by exists "", tl. }
  simpl in Hhead |- *. rewrite Hhead. f_equal. apply IH.
  intros H. by apply Hno, Contains_cons.
Qed.

End StringFacts.

(** * The run-level classification *)

Section RunStatus.

(** C1. The classification of the latest run in [renderSystemStatus] is
    total and follows the decision order, first match wins: no record
    gives success/Operational; a status of in_progress or queued gives
    loading/Running; otherwise a conclusion of failure gives
    error/Failed; otherwise a conclusion of cancelled gives
    warning/Cancelled; otherwise success/Operational.  The sixteen
    combinations of status in {null, in_progress, queued, completed} and
    conclusion in {null, success, failure, cancelled} come out as the
    decision order says, row by row. *)
Theorem latestRunStatus_decision_order :
  latestRunStatus None = ("success", "Operational")
  /\ (forall r : Run,
        let running := run_status r = Some "in_progress" \/ run_status r = Some "queued" in
        let failed := run_conclusion r = Some "failure" in
        let cancelled := run_conclusion r = Some "cancelled" in
        (running -> latestRunStatus (Some r) = ("loading", "Running"))
        /\ (~ running -> failed -> latestRunStatus (Some r) = ("error", "Failed"))
        /\ (~ running -> ~ failed -> cancelled ->
            latestRunStatus (Some r) = ("warning", "Cancelled"))
        /\ (~ running -> ~ failed -> ~ cancelled ->
            latestRunStatus (Some r) = ("success", "Operational")))
  /\ map (fun status =>
            map (fun conclusion => latestRunStatus (Some (runWith status conclusion)))
                conclusionValues)
         statusValues
     = [ (* status null *)
         [ ("success", "Operational"); ("success", "Operational");
           ("error", "Failed"); ("warning", "Cancelled") ];
         (* status in_progress *)
         [ ("loading", "Running"); ("loading", "Running");
           ("loading", "Running"); ("loading", "Running") ];
         (* status queued *)
         [ ("loading", "Running"); ("loading", "Running");
           ("loading", "Running"); ("loading", "Running") ];
         (* status completed *)
         [ ("success", "Operational"); ("success", "Operational");
           ("error", "Failed"); ("warning", "Cancelled") ] ].
Proof.
  split; [reflexivity | split; [| reflexivity]].
  intros r running failed cancelled. unfold latestRunStatus.
  destruct (Js.strictEq (run_status r) "in_progress") eqn:Hp;
    [| destruct (Js.strictEq (run_status r) "queued") eqn:Hq ]; simpl.
  - apply strictEq_Some in Hp.
    repeat split; try done; intros Hn; exfalso; apply Hn; by left.
  - apply strictEq_Some in Hq.
    repeat split; try done; intros Hn; exfalso; apply Hn; by right.
  - apply strictEq_false in Hp. apply strictEq_false in Hq.
    assert (Hidle : ~ running) by (intros [H | H]; contradiction).
    destruct (Js.strictEq (run_conclusion r) "failure") eqn:Hf;
      [| destruct (Js.strictEq (run_conclusion r) "cancelled") eqn:Hc ].
    + apply strictEq_Some in Hf. repeat split; try done; intros; contradiction.
    + apply strictEq_false in Hf. apply strictEq_Some in Hc.
      repeat split; try done; intros; contradiction.
    + apply strictEq_false in Hf. apply strictEq_false in Hc.
      repeat split; try done; intros; contradiction.
Qed.

(** The classification reads no field other than [status] and
    [conclusion]. *)
Lemma latestRunStatus_fields (r : Run) :
  latestRunStatus (Some r) = latestRunStatus (Some (runWith (run_status r) (run_conclusion r))).
Proof. reflexivity. Qed.

End RunStatus.

(** * The job-level classification against the run-level one *)

Section JobStatus.

(** C4, as stated, fails: a queued record and a cancelled record are both
    [pending] at the job level, while the run level tells them apart as
    [loading] and [warning]; so no reading of the job-level classes in
    the run-level vocabulary makes the two classifications agree. *)
Lemma job_level_differs_from_run_level :
  statusClass (Some "queued") None = "pending"
  /\ (latestRunStatus (Some (runWith (Some "queued") None))).1 = "loading"
  /\ statusClass (Some "completed") (Some "cancelled") = "pending"
  /\ (latestRunStatus (Some (runWith (Some "completed") (Some "cancelled")))).1 = "warning"
  /\ ~ (exists toKind : string -> string,
          forall status conclusion,
            toKind (statusClass status conclusion)
            = (latestRunStatus (Some (runWith status conclusion))).1).
Proof.
  repeat split.
  intros [toKind H].
  pose proof (H (Some "queued") None) as Hq.
  pose proof (H (Some "completed") (Some "cancelled")) as Hc.
  vm_compute in Hq, Hc. congruence.
Qed.

(** C4, amended. The job-level class of [buildJobTree] is a chain of its
    own, keyed on the conclusion first: success, else failure, else
    running when the status is in_progress, else pending.  Read in the
    run-level vocabulary (success, failure as error, running as loading)
    it names the kind that [renderSystemStatus] gives the same record
    exactly when the record is not running or queued and has concluded in
    success or failure, or is in progress without such a conclusion. *)
Theorem job_level_classification (j : Job) :
  let status := job_status j in
  let conclusion := job_conclusion j in
  let class := statusClass status conclusion in
  let kind := (latestRunStatus (Some (runWith status conclusion))).1 in
  rootItem j = TreeRoot (statusIcon status conclusion) class (job_name j)
  /\ (conclusion = Some "success" -> class = "success")
  /\ (conclusion <> Some "success" -> conclusion = Some "failure" -> class = "failure")
  /\ (conclusion <> Some "success" -> conclusion <> Some "failure" ->
      status = Some "in_progress" -> class = "running")
  /\ (conclusion <> Some "success" -> conclusion <> Some "failure" ->
      status <> Some "in_progress" -> class = "pending")
  /\ (kindOfClass class = Some kind <->
      (status <> Some "in_progress" /\ status <> Some "queued"
       /\ (conclusion = Some "success" \/ conclusion = Some "failure"))
      \/ (status = Some "in_progress"
          /\ conclusion <> Some "success" /\ conclusion <> Some "failure")).
Proof.
  intros status conclusion class kind.
  split; [reflexivity |].
  subst class kind. unfold statusClass, latestRunStatus. simpl.
  generalize status conclusion. clear. intros status conclusion.
  destruct (Js.strictEq conclusion "success") eqn:Hs;
    [| destruct (Js.strictEq conclusion "failure") eqn:Hf ];
  destruct (Js.strictEq status "in_progress") eqn:Hp;
  try destruct (Js.strictEq status "queued") eqn:Hq;
  try destruct (Js.strictEq conclusion "cancelled") eqn:Hc;
  rewrite ?strictEq_Some, ?strictEq_false in *;
  repeat match goal with H : ?x = Some _ |- _ => is_var x; subst x end;
  cbn in *; intuition congruence.
Qed.

End JobStatus.

(** * The counters *)

Section Counters.

(** C6. The transcript counter of [renderStats] shows 0 when the
    run-count request resolves with no runs (a total count of zero, or
    none at all) and shows "-" when the request rejects; and whatever a
    resolved request carries, the counter never shows "-". *)
Theorem transcript_counter_zero_vs_unavailable (up : Upstream) :
  (forall page, transcript_run_count up = Resolved page ->
     total_count page = Some 0 \/ total_count page = None ->
     stat_transcripts (renderStats up) = "0")
  /\ (forall message, transcript_run_count up = Rejected message ->
        stat_transcripts (renderStats up) = "-")
  /\ (forall page, transcript_run_count up = Resolved page ->
        stat_transcripts (renderStats up) <> "-").
Proof.
  unfold renderStats, transcriptsStat. simpl. repeat split.
  - intros page -> [-> | ->]; reflexivity.
  - intros message ->. reflexivity.
  - intros page ->. apply ofZ_not_dash.
Qed.

(** The two outcomes on a concrete upstream: an empty run list, and a
    request that rejects. *)
Lemma transcript_counter_examples :
  stat_transcripts
    (renderStats (withRunCount (Resolved {| total_count := Some 0; workflow_runs := Some [] |})
                               offline)) = "0"
  /\ stat_transcripts (renderStats offline) = "-".
Proof.
  pose proof (transcript_counter_zero_vs_unavailable
                (withRunCount (Resolved {| total_count := Some 0; workflow_runs := Some [] |})
                              offline)) as (Hzero & _ & _).
  pose proof (transcript_counter_zero_vs_unavailable offline) as (_ & Hdash & _).
  split.
  - eapply Hzero; [reflexivity | by left].
  - eapply Hdash. reflexivity.
Defined.

End Counters.

(** * Loops that push on an array *)

Section Pushes.

Context {A B : Type}.

(** A loop that pushes [f x] for every [x] builds [map f]. *)
Lemma fold_left_push (f : A -> B) (l : list A) (acc : list B) :
  fold_left (fun out x => out ++ [f x]) l acc = acc ++ map f l.
Proof.
  revert acc. induction l as [|x l IH]; intros acc; simpl.
  - by rewrite app_nil_r.
  - rewrite IH. by rewrite <- app_assoc.
Qed.

End Pushes.

(** * The status board *)

Section StatusBoard.

Variable up : Upstream.

Lemma renderSystemStatus_map :
  renderSystemStatus up = map (fun kv => statusOf up kv.2) REPOS.
Proof. unfold renderSystemStatus. by rewrite fold_left_push. Qed.

Lemma statusOf_rejected repoName message :
  latest_runs up repoName = Rejected message ->
  statusOf up repoName
  = {| entry_repo := repoName; entry_status := "error"; entry_statusText := "Unavailable" |}.
Proof. unfold statusOf. by intros ->. Qed.

Lemma statusOf_resolved repoName page rs :
  latest_runs up repoName = Resolved page ->
  workflow_runs page = Some rs ->
  statusOf up repoName
  = {| entry_repo := repoName;
       entry_status := (latestRunStatus (head rs)).1;
       entry_statusText := (latestRunStatus (head rs)).2 |}.
Proof. unfold statusOf. by intros -> ->. Qed.

(** A response without its run list makes the read of the latest run
    throw inside the [try]: the entry is Unavailable as well. *)
Lemma statusOf_malformed repoName page :
  latest_runs up repoName = Resolved page ->
  workflow_runs page = None ->
  statusOf up repoName
  = {| entry_repo := repoName; entry_status := "error"; entry_statusText := "Unavailable" |}.
Proof. unfold statusOf. by intros -> ->. Qed.

(** C2. Whatever the outcomes of the per-repository requests, the board
    of [renderSystemStatus] has one entry per monitored repository, in
    the order of the static list; the entry of a repository whose request
    rejects is error/Unavailable, the entry of a repository whose request
    resolves with its run list is the classification of its latest run,
    and neither depends on the request of any other repository. *)
Theorem status_board_fault_isolation :
  map entry_repo (renderSystemStatus up) = map snd REPOS
  /\ length (renderSystemStatus up) = 3%nat
  /\ forall (i : nat) (key repoName : string),
       REPOS !! i = Some (key, repoName) ->
       exists e,
         renderSystemStatus up !! i = Some e
         /\ entry_repo e = repoName
         /\ (forall message,
               latest_runs up repoName = Rejected message ->
               entry_status e = "error" /\ entry_statusText e = "Unavailable")
         /\ (forall page rs,
               latest_runs up repoName = Resolved page ->
               workflow_runs page = Some rs ->
               (entry_status e, entry_statusText e) = latestRunStatus (head rs)).
Proof.
  rewrite renderSystemStatus_map. split; [| split].
  - rewrite map_map. apply map_ext. intros [key repoName]. simpl.
    unfold statusOf. destruct (latest_runs up repoName) as [page|message];
      [destruct (workflow_runs page) |]; reflexivity.
  - by rewrite length_map.
  - intros i key repoName Hi.
    exists (statusOf up repoName). split; [| split; [| split]].
    + change (map ?f ?l) with (f <$> l). by rewrite list_lookup_fmap, Hi.
    + unfold statusOf. destruct (latest_runs up repoName) as [page|message];
        [destruct (workflow_runs page) |]; reflexivity.
    + intros message Hrej. by rewrite (statusOf_rejected _ _ Hrej).
    + intros page rs Hres Hruns. rewrite (statusOf_resolved _ _ _ Hres Hruns). simpl.
      by destruct (latestRunStatus (head rs)).
Qed.

End StatusBoard.

(** The board when Library's request rejects while Conduct's and
    Listen's resolve: three entries, Library's marked Unavailable. *)
Lemma status_board_library_down :
  renderSystemStatus libraryDown
  = [ {| entry_repo := "Legato.Conduct"; entry_status := "error";
         entry_statusText := "Failed" |};
      {| entry_repo := "Legato.Library"; entry_status := "error";
         entry_statusText := "Unavailable" |};
      {| entry_repo := "Legato.Listen"; entry_status := "success";
         entry_statusText := "Operational" |} ]
  /\ exists e, renderSystemStatus libraryDown !! 1%nat = Some e
               /\ entry_status e = "error" /\ entry_statusText e = "Unavailable".
Proof.
  split; [reflexivity |].
  destruct (status_board_fault_isolation libraryDown) as (_ & _ & Hboard).
  destruct (Hboard 1%nat "library" "Legato.Library" eq_refl) as (e & He & _ & Hrej & _).
  exists e. split; [exact He |].
  apply (Hrej "GitHub API error: 502"). reflexivity.
Defined.

(** * The job tree *)

Section JobTree.

Context {host : Js.Host}.

(** ** Lower-casing and case-insensitive search *)

Lemma asciiLowerChar_sameLetter (c p : ascii) :
  ((nat_of_ascii p <? 65) || (90 <? nat_of_ascii p))%nat = true ->
  Js.asciiLowerChar c = p <-> sameLetter c p.
Proof.
  intros Hp. apply orb_true_iff in Hp.
  rewrite !Nat.ltb_lt in Hp.
  unfold Js.asciiLowerChar, sameLetter.
  destruct ((65 <=? nat_of_ascii c) && (nat_of_ascii c <=? 90))%nat eqn:Hcap.
  - apply andb_true_iff in Hcap as [Hlo%Nat.leb_le Hhi%Nat.leb_le]. split.
    + intros <-. right. split; [lia |]. apply nat_ascii_embedding. lia.
    + intros [-> | [_ Hsmall]]; [lia |].
      rewrite <- Hsmall. apply ascii_nat_embedding.
  - apply andb_false_iff in Hcap. rewrite !Nat.leb_gt in Hcap. split.
    + intros <-. by left.
    + intros [-> | [Hrange _]]; [done | lia].
Qed.

Lemma asciiLower_sameLetters (mid pat : string) :
  noCapitals pat = true ->
  Js.asciiLower mid = pat <-> sameLetters mid pat.
Proof.
  revert pat. induction mid as [|c mid IH]; intros [|p pat] Hpat; simpl; try done.
  apply andb_true_iff in Hpat as [Hp Hpat].
  rewrite <- (IH pat Hpat), <- (asciiLowerChar_sameLetter c p Hp).
  split; [intros [= -> ->]; done | intros [-> ->]; done].
Qed.

Lemma asciiLower_app (a b : string) :
  Js.asciiLower (a +:+ b) = Js.asciiLower a +:+ Js.asciiLower b.
Proof.
  induction a as [|c a IH]; [done |].
  rewrite append_cons. simpl. by rewrite IH, append_cons.
Qed.

Lemma asciiLower_split (x y : string) :
  forall s, Js.asciiLower s = x +:+ y ->
            exists a b, s = a +:+ b /\ Js.asciiLower a = x /\ Js.asciiLower b = y.
Proof.
  induction x as [|c x IH]; intros s Hs.
  - by exists "", s.
  - rewrite append_cons in Hs. destruct s as [|d s]; [discriminate |].
    simpl in Hs. injection Hs as Hc Hs.
    destruct (IH s Hs) as (a & b & -> & Ha & Hb).
    exists (String d a), b. rewrite append_cons. simpl. by rewrite Hc, Ha.
Qed.

(** Searching the lower-cased string for a pattern without capitals is
    searching the string case-insensitively. *)
Lemma Contains_asciiLower (pat s : string) :
  noCapitals pat = true ->
  Contains pat (Js.asciiLower s) <-> ContainsIgnoringCase pat s.
Proof.
  intros Hpat. unfold Contains, ContainsIgnoringCase. split.
  - intros (pre & post & Hs).
    apply asciiLower_split in Hs as (a & r & -> & _ & Hr).
    apply asciiLower_split in Hr as (mid & b & -> & Hmid & _).
    exists a, mid, b. split; [done |]. by apply asciiLower_sameLetters.
  - intros (pre & mid & post & -> & Hmid).
    apply asciiLower_sameLetters in Hmid; [| done].
    exists (Js.asciiLower pre), (Js.asciiLower post).
    by rewrite !asciiLower_app, Hmid.
Qed.

Lemma isBoilerplate_Contains (name : string) :
  isBoilerplate name = true
  <-> exists pat, pat ∈ ["checkout"; "setup python"; "install"]
                  /\ Contains pat (Js.toLowerCase name).
Proof.
  unfold isBoilerplate. rewrite !orb_true_iff, !includes_Contains. split.
  - intros [[H | H] | H]; eexists; (split; [| exact H]);
      apply list_elem_of_In; simpl; tauto.
  - intros (pat & Hpat & H).
    apply list_elem_of_In in Hpat. simpl in Hpat.
    destruct Hpat as [<- | [<- | [<- | []]]]; tauto.
Qed.

(** On an ASCII name the guard is what the ASCII lower-casing gives. *)
Lemma isBoilerplate_ascii (name : string) :
  Js.isAscii name = true ->
  isBoilerplate name
  = Js.includes "checkout" (Js.asciiLower name)
    || Js.includes "setup python" (Js.asciiLower name)
    || Js.includes "install" (Js.asciiLower name).
Proof. intros Hascii. unfold isBoilerplate. by rewrite Js.toLowerCase_ascii. Qed.

Lemma isBoilerplate_ignoring_case (name : string) :
  Js.isAscii name = true ->
  isBoilerplate name = true
  <-> exists pat, pat ∈ ["checkout"; "setup python"; "install"]
                  /\ ContainsIgnoringCase pat name.
Proof.
  intros Hascii. rewrite isBoilerplate_Contains, Js.toLowerCase_ascii by done.
  split; intros (pat & Hpat & H); exists pat; (split; [done |]);
    apply Contains_asciiLower; try done;
    apply list_elem_of_In in Hpat; simpl in Hpat;
    by destruct Hpat as [<- | [<- | [<- | []]]].
Qed.

(** The loop over the steps appends the kept steps, in order. *)
Lemma addStep_loop (steps : list Step) (html : list TreeItem) :
  fold_left addStep steps html
  = html ++ map stepItem
              (List.filter (fun step => negb (isBoilerplate (step_name step))) steps).
Proof.
  revert html. induction steps as [|step steps IH]; intros html; simpl.
  - by rewrite app_nil_r.
  - rewrite IH. unfold addStep.
    destruct (isBoilerplate (step_name step)); simpl; [done |].
    by rewrite <- app_assoc.
Qed.

Lemma addJob_items (html : list TreeItem) (job : Job) :
  addJob html job = html ++ rootItem job :: map stepItem (keptSteps job).
Proof.
  unfold addJob, keptSteps. destruct (job_steps job) as [[|step steps]|]; simpl; try done.
  change (fold_left addStep steps (addStep (html ++ [rootItem job]) step))
    with (fold_left addStep (step :: steps) (html ++ [rootItem job])).
  rewrite addStep_loop. by rewrite <- app_assoc.
Qed.

Lemma addJob_loop (js : list Job) (html : list TreeItem) :
  fold_left addJob js html
  = html ++ flat_map (fun job => rootItem job :: map stepItem (keptSteps job)) js.
Proof.
  revert html. induction js as [|job js IH]; intros html; simpl.
  - by rewrite app_nil_r.
  - rewrite IH, addJob_items. by rewrite <- app_assoc.
Qed.

(** C5. [buildJobTree] leaves out exactly the steps whose name
    case-insensitively contains checkout, setup python or install: the
    steps whose name, lower-cased by the host, contains one of them, which
    for a name of ASCII characters are the steps with a part that reads
    as one of them when the case of the letters is ignored (Checkout
    code, CHECKOUT, Install deps, Setup Python 3.11 and pip INSTALL are
    left out, Build and Run tests are not).  Every other step is emitted
    as a child item after the root item of its job, jobs and steps in
    input order; the steps Checkout code, Build, Run tests give two
    children, Build then Run tests. *)
Theorem buildJobTree_skips_boilerplate :
  (forall name,
     isBoilerplate name = true
     <-> exists pat, pat ∈ ["checkout"; "setup python"; "install"]
                     /\ Contains pat (Js.toLowerCase name))
  /\ (forall name,
        Js.isAscii name = true ->
        isBoilerplate name = true
        <-> exists pat, pat ∈ ["checkout"; "setup python"; "install"]
                        /\ ContainsIgnoringCase pat name)
  /\ map isBoilerplate
         [ "Checkout code"; "CHECKOUT"; "Install deps"; "Setup Python 3.11";
           "pip INSTALL"; "Build"; "Run tests" ]
     = [ true; true; true; true; true; false; false ]
  /\ (forall job js,
        buildJobTree (Some (job :: js))
        = Tree (flat_map
                  (fun j =>
                     rootItem j
                     :: map stepItem
                          (List.filter (fun step => negb (isBoilerplate (step_name step)))
                                       (default [] (job_steps j))))
                  (job :: js)))
  /\ buildJobTree (Some [buildAndTest])
     = Tree [ rootItem buildAndTest;
              TreeChild "&#x2705;" "Build";
              TreeChild "&#x274C;" "Run tests" ].
Proof.
  split; [| split; [| split; [| split]]].
  - apply isBoilerplate_Contains.
  - apply isBoilerplate_ignoring_case.
  - cbn [map]. by rewrite !isBoilerplate_ascii by reflexivity.
  - intros job js. unfold buildJobTree. by rewrite addJob_loop.
  - unfold buildJobTree. rewrite addJob_loop. unfold keptSteps.
    cbn [flat_map buildAndTest job_steps default from_option id List.filter step_name].
    by rewrite !isBoilerplate_ascii by reflexivity.
Qed.

End JobTree.

(** The step Install Dependencies, with its capital letters, is left
    out. *)
Lemma install_step_is_boilerplate :
  isBoilerplate (host := Js.asciiHost) "Install Dependencies" = true.
Proof.
  apply (proj1 (proj2 (buildJobTree_skips_boilerplate (host := Js.asciiHost)))
           "Install Dependencies" eq_refl).
  exists "install". split; [apply list_elem_of_In; simpl; tauto |].
  exists "", "Install", " Dependencies". split; [reflexivity |].
  simpl. unfold sameLetter.
  repeat split;
    first [ by left
          | right; split; [split; apply Nat.leb_le; reflexivity | reflexivity] ].
Defined.

(** * The artifact walk *)

Section ArtifactWalk.

Lemma admitted_true (seen : gset string) (path : string) :
  admitted seen path = true
  <-> Js.endsWith ".md" path = true /\ Js.includes "README" path = false /\ path ∉ seen.
Proof.
  unfold admitted. rewrite !andb_true_iff, !negb_true_iff, bool_decide_eq_false. tauto.
Qed.

Lemma artifactOf_path path date : art_path (artifactOf path date) = path.
Proof. reflexivity. Qed.

Lemma artifactOf_date path date : art_date (artifactOf path date) = date.
Proof. reflexivity. Qed.

(** ** The nested loops as one loop *)

Lemma scanEntries_full entries st :
  capReached (artifacts st) = true -> scanEntries entries st = st.
Proof. destruct entries as [|[path date] rest]; simpl; [done |]. by intros ->. Qed.

Lemma scanEntries_app es1 es2 st :
  scanEntries (es1 ++ es2) st = scanEntries es2 (scanEntries es1 st).
Proof.
  revert st. induction es1 as [|[path date] es1 IH]; intros st; simpl; [done |].
  destruct (capReached (artifacts st)) eqn:Hfull.
  - by rewrite scanEntries_full.
  - destruct (admitted (seenFiles st) path); apply IH.
Qed.

Lemma scanFiles_entries date fs st :
  capReached (artifacts st) = false ->
  scanFiles date fs st = scanEntries (map (fun path => (path, date)) (map filename fs)) st.
Proof.
  revert st. induction fs as [|file fs IH]; intros st Hroom; simpl; [done |].
  rewrite Hroom. destruct (admitted (seenFiles st) (filename file)).
  - match goal with
    | |- (if ?full then _ else _) = _ => destruct full eqn:Hfull
    end.
    + symmetry. by apply scanEntries_full.
    + by apply IH.
  - by apply IH.
Qed.

Lemma scanCommits_entries up commits st :
  scanCommits up commits st = scanEntries (visited up commits) st.
Proof.
  revert st. induction commits as [|commit rest IH]; intros st; simpl; [done |].
  destruct (capReached (artifacts st)) eqn:Hfull.
  - by rewrite scanEntries_full.
  - unfold visited. simpl. rewrite scanEntries_app. fold (visited up rest).
    unfold changedFiles.
    destruct (commit_details up (commit_sha commit)) as [details|message].
    + rewrite IH. f_equal. by apply scanFiles_entries.
    + apply IH.
Qed.

(** ** The invariant of the walk *)

Lemma ScanInv_init : ScanInv [] {| artifacts := []; seenFiles := ∅ |}.
Proof.
  split; simpl.
  - intros p. split; [set_solver | by intros ?%elem_of_nil].
  - constructor.
  - by intros a ?%elem_of_nil.
  - by intros p ?%elem_of_nil.
Qed.

Lemma ScanInv_skip done st path date :
  ScanInv done st ->
  admitted (seenFiles st) path = false ->
  ScanInv (done ++ [(path, date)]) st.
Proof.
  intros [Hseen Hnodup Hfirst Hcov] Hskip. split; [done | done | |].
  - intros a Ha. destruct (Hfirst a Ha) as (before & after & -> & Hfresh).
    exists before, (after ++ [(path, date)]). split; [| done].
    by rewrite <- app_assoc.
  - intros p Hp Hmd Hidx. rewrite map_app, elem_of_app in Hp.
    destruct Hp as [Hp | Hp]; [by apply Hcov |].
    simpl in Hp. apply list_elem_of_singleton in Hp as ->.
    destruct (decide (path ∈ seenFiles st)) as [|Hnew]; [done |].
    assert (admitted (seenFiles st) path = true) by by apply admitted_true.
    congruence.
Qed.

Lemma ScanInv_push done st path date :
  ScanInv done st ->
  admitted (seenFiles st) path = true ->
  ScanInv (done ++ [(path, date)])
          {| artifacts := artifacts st ++ [artifactOf path date];
             seenFiles := {[ path ]} ∪ seenFiles st |}.
Proof.
  intros [Hseen Hnodup Hfirst Hcov] (Hmd & Hidx & Hnew)%admitted_true.
  split; simpl.
  - intros p. rewrite map_app, elem_of_app, elem_of_union, elem_of_singleton, Hseen.
    simpl. rewrite list_elem_of_singleton. tauto.
  - rewrite map_app. simpl. apply NoDup_app. split; [done | split].
    + intros p Hp ->%list_elem_of_singleton. by apply Hnew, Hseen.
    + apply NoDup_singleton.
  - intros a [Ha | ->%list_elem_of_singleton]%elem_of_app.
    + destruct (Hfirst a Ha) as (before & after & -> & Hfresh).
      exists before, (after ++ [(path, date)]). split; [| done].
      by rewrite <- app_assoc.
    + exists done, []. split; [done |].
      intros Hold. by apply Hnew, Hcov.
  - intros p Hp Hmd' Hidx'. rewrite map_app, elem_of_app in Hp.
    rewrite elem_of_union, elem_of_singleton.
    destruct Hp as [Hp | Hp].
    + right. by apply Hcov.
    + left. simpl in Hp. by apply list_elem_of_singleton in Hp.
Qed.

Lemma scanEntries_inv entries :
  forall done st,
    ScanInv done st ->
    exists done' rest,
      done ++ entries = done' ++ rest /\ ScanInv done' (scanEntries entries st).
Proof.
  induction entries as [|[path date] entries IH]; intros done st Hinv; simpl.
  - by exists done, [].
  - destruct (capReached (artifacts st)); [by exists done, ((path, date) :: entries) |].
    destruct (admitted (seenFiles st) path) eqn:Hadm.
    + destruct (IH _ _ (ScanInv_push _ _ _ date Hinv Hadm)) as (done' & rest & Heq & Hinv').
      exists done', rest. split; [| done]. by rewrite <- Heq, <- app_assoc.
    + destruct (IH _ _ (ScanInv_skip _ _ _ date Hinv Hadm)) as (done' & rest & Heq & Hinv').
      exists done', rest. split; [| done]. by rewrite <- Heq, <- app_assoc.
Qed.

(** ** From the visited files back to the commits *)

Lemma flat_map_split {A B : Type} (g : A -> list B) (l : list A) :
  forall before x after,
    flat_map g l = before ++ x :: after ->
    exists l1 c l2 b1 b2,
      l = l1 ++ c :: l2 /\ g c = b1 ++ x :: b2 /\ before = flat_map g l1 ++ b1.
Proof.
  induction l as [|c l IH]; intros before x after Heq; simpl in Heq.
  - by destruct before.
  - apply app_eq_app in Heq as [tl [[Hc Hx] | [Hb Hl]]].
    + destruct tl as [|y tl].
      * simpl in Hx. rewrite app_nil_r in Hc. subst before.
        destruct (IH [] x after) as (l1 & c' & l2 & b1 & b2 & -> & Hg & Hb);
          [by symmetry |].
        exists (c :: l1), c', l2, b1, b2. simpl. repeat split; [done |].
        rewrite <- app_assoc. by rewrite <- Hb, app_nil_r.
      * injection Hx as <- Hafter.
        exists [], c, l, before, tl. by repeat split.
    + destruct (IH tl x after Hl) as (l1 & c' & l2 & b1 & b2 & -> & Hg & ->).
      exists (c :: l1), c', l2, b1, b2. simpl. repeat split; [done |].
      by rewrite Hb, <- app_assoc.
Qed.

(** C3. One pass of [renderLibraryArtifacts] over any commit window puts
    at most one artifact per file path on its list, however many commits
    of the window change that path; and the artifact kept for a path
    carries the date of the first commit of the window, in walk order
    (newest first), among whose changed files the path appears. *)
Theorem artifacts_unique_first_wins (up : Upstream) (commits : list Commit) :
  NoDup (map art_path (collectArtifacts up commits))
  /\ forall a, a ∈ collectArtifacts up commits ->
       exists earlier commit later,
         commits = earlier ++ commit :: later
         /\ art_path a ∈ changedFiles up commit
         /\ art_date a = commit_author_date commit
         /\ forall c, c ∈ earlier -> art_path a ∉ changedFiles up c.
Proof.
  unfold collectArtifacts. rewrite scanCommits_entries.
  destruct (scanEntries_inv (visited up commits) [] _ ScanInv_init)
    as (done & rest & Heq & [_ Hnodup Hfirst _]).
  split; [exact Hnodup |].
  intros a Ha. destruct (Hfirst a Ha) as (before & after & -> & Hfresh).
  simpl in Heq. rewrite <- app_assoc in Heq. simpl in Heq.
  apply flat_map_split in Heq
    as (earlier & commit & later & b1 & b2 & -> & Hhere & ->).
  exists earlier, commit, later.
  assert (Hin : (art_path a, art_date a)
                ∈ map (fun path => (path, commit_author_date commit))
                      (changedFiles up commit)).
  { rewrite Hhere. apply elem_of_app. right. by left. }
  apply list_elem_of_In, in_map_iff in Hin as (path & [= Hp Hd] & Hpath).
  subst path.
  split; [done | split; [by apply list_elem_of_In | split; [done |]]].
  intros c Hc Hthere. apply Hfresh.
  rewrite map_app. apply elem_of_app. left.
  apply list_elem_of_In, in_map_iff.
  exists (art_path a, commit_author_date c). split; [done |].
  apply in_flat_map. exists c. split; [by apply list_elem_of_In |].
  apply in_map with (f := fun path => (path, commit_author_date c)).
  by apply list_elem_of_In.
Qed.

(** A window of three commits that all change the same note: the note
    is listed once, with the date of the newest commit. *)
Lemma artifacts_three_commits :
  collectArtifacts overlapping threeCommits
  = [ {| art_name := "idea"; art_category := "notes";
         art_path := "notes/idea.md"; art_date := 3000 |};
      {| art_name := "graph"; art_category := "concepts";
         art_path := "concepts/graph.md"; art_date := 3000 |} ]
  /\ NoDup (map art_path (collectArtifacts overlapping threeCommits)).
Proof.
  split; [by vm_compute |].
  exact (proj1 (artifacts_unique_first_wins overlapping threeCommits)).
Defined.

(** ** The admission test *)

Lemma scanFiles_one date path st :
  scanFiles date [ {| filename := path |} ] st
  = if admitted (seenFiles st) path
    then {| artifacts := artifacts st ++ [artifactOf path date];
            seenFiles := {[ path ]} ∪ seenFiles st |}
    else st.
Proof.
  simpl. destruct (admitted (seenFiles st) path); [| done].
  by destruct (capReached _).
Qed.

(** C10. The index exclusion of [renderLibraryArtifacts] is a
    case-sensitive substring test for README: a changed file whose path
    ends with .md and has not been seen is left out when its path contains
    README somewhere and is pushed as an artifact when it does not; the
    path notes/readme.md does not contain README, and a commit that
    changes it yields the artifact readme of category notes. *)
Theorem readme_exclusion_is_case_sensitive :
  (forall (date : Timestamp) (st : Scan) (path : string),
     Js.endsWith ".md" path = true ->
     path ∉ seenFiles st ->
     (Contains "README" path ->
      scanFiles date [ {| filename := path |} ] st = st)
     /\ (~ Contains "README" path ->
         artifacts (scanFiles date [ {| filename := path |} ] st)
         = artifacts st ++ [artifactOf path date]))
  /\ ~ Contains "README" "notes/readme.md"
  /\ Contains "README" "notes/README.md"
  /\ collectArtifacts lowercaseReadme [ {| commit_sha := "c1"; commit_author_date := 1000 |} ]
     = [ {| art_name := "readme"; art_category := "notes";
            art_path := "notes/readme.md"; art_date := 1000 |} ].
Proof.
  split; [| split; [| split]].
  - intros date st path Hmd Hnew. rewrite scanFiles_one. split.
    + intros Hidx%includes_Contains.
      destruct (admitted (seenFiles st) path) eqn:Hadm; [| done].
      apply admitted_true in Hadm as (_ & Hno & _). congruence.
    + intros Hidx%includes_false.
      assert (admitted (seenFiles st) path = true) as -> by by apply admitted_true.
      done.
  - by apply includes_false.
  - by apply includes_Contains.
  - by vm_compute.
Qed.

(** The test on a concrete scan: nothing seen yet, the lowercase path. *)
Lemma readme_lowercase_admitted :
  artifacts (scanFiles 1000 [ {| filename := "notes/readme.md" |} ]
                       {| artifacts := []; seenFiles := ∅ |})
  = [artifactOf "notes/readme.md" 1000].
Proof.
  destruct readme_exclusion_is_case_sensitive as (Htest & Hlower & _).
  apply (Htest 1000 {| artifacts := []; seenFiles := ∅ |} "notes/readme.md");
    [reflexivity | apply not_elem_of_empty | exact Hlower].
Defined.

(** ** The derived name *)

(** C7 fails on the name: [replace('.md', '')] removes the first
    occurrence of .md in the last segment, which need not be the one at
    its end.  The admitted path concepts/using.mdx.md gets the category
    concepts and the name usingx.md, where stripping the extension from
    the end of the last segment gives using.mdx. *)
Theorem artifact_name_replaces_first_md :
  let path := "concepts/using.mdx.md" in
  admitted ∅ path = true
  /\ List.last (Js.split "/" path) "" = "using.mdx.md"
  /\ art_category (artifactOf path 0) = "concepts"
  /\ art_name (artifactOf path 0) = "usingx.md"
  /\ stripExtension ".md" "using.mdx.md" = "using.mdx"
  /\ art_name (artifactOf path 0) <> stripExtension ".md" (List.last (Js.split "/" path) "").
Proof.
  cbv zeta. split; [by vm_compute |].
  split; [reflexivity |].
  split; [reflexivity |].
  split; [reflexivity |].
  split; [reflexivity |].
  vm_compute. discriminate.
Qed.

(** X15. The category of an artifact is the first segment of its path
    when the path has a directory component, and [unknown] for a path
    without a slash. *)
Lemma artifact_category (date : Timestamp) :
  (forall path, ~ Contains "/" path -> art_category (artifactOf path date) = "unknown")
  /\ (forall dir rest, ~ Contains "/" dir ->
        art_category (artifactOf (dir +:+ "/" +:+ rest) date) = dir).
Proof.
  split.
  - intros path Hno. unfold artifactOf. simpl. by rewrite split_no_sep.
  - intros dir rest Hno. unfold artifactOf. cbn [art_category].
    change ("/" +:+ rest) with (String "/" rest).
    rewrite split_first_segment by done.
    pose proof (split_nonempty "/" rest). by destruct (Js.split "/" rest).
Qed.

(** X16. The name of an artifact is the last segment of its path
    without the ending [.md], as long as [.md] does not occur earlier in
    that segment. *)
Lemma artifact_name_single_md (date : Timestamp) (base : string) :
  ~ Contains "/" base -> ~ Contains ".md" base ->
  art_name (artifactOf (base +:+ ".md") date) = base
  /\ forall dir, art_name (artifactOf (dir +:+ "/" +:+ base +:+ ".md") date) = base.
Proof.
  intros Hslash Hmd.
  assert (Hseg : ~ Contains "/" (base +:+ ".md")).
  { intros Hc%includes_Contains. apply Hslash, includes_Contains.
    clear Hslash Hmd. induction base as [|c base IH]; [done |].
    rewrite append_cons, includes_cons in Hc. rewrite includes_cons.
    apply orb_true_iff in Hc as [Hc | Hc]; apply orb_true_iff.
    - left. apply prefix_append in Hc as [post Hpost]. apply prefix_append.
      rewrite append_cons, append_nil in Hpost. injection Hpost as -> _.
      by exists base.
    - right. by apply IH. }
  split.
  - unfold artifactOf. cbn [art_name].
    rewrite split_no_sep by done. simpl List.last. by apply replace_md_suffix.
  - intros dir. unfold artifactOf. cbn [art_name].
    change ("/" +:+ base +:+ ".md") with (String "/" (base +:+ ".md")).
    destruct (split_last_segment "/" dir (base +:+ ".md") Hseg) as (segs & -> & _).
    rewrite last_last. by apply replace_md_suffix.
Qed.

(** ** The cap *)

Lemma scanEntries_cap entries :
  forall st, (length (artifacts st) <= 5)%nat ->
             (length (artifacts (scanEntries entries st)) <= 5)%nat.
Proof.
  induction entries as [|[path date] entries IH]; intros st Hlen; simpl; [done |].
  destruct (capReached (artifacts st)) eqn:Hfull; [done |].
  destruct (admitted (seenFiles st) path); [| by apply IH].
  apply IH. simpl. rewrite length_app. simpl.
  unfold capReached in Hfull. apply Nat.leb_gt in Hfull. lia.
Qed.

(** A pass lists at most five artifacts, however many eligible files
    the window holds. *)
Lemma collectArtifacts_cap (up : Upstream) (commits : list Commit) :
  (length (collectArtifacts up commits) <= 5)%nat.
Proof.
  unfold collectArtifacts. rewrite scanCommits_entries.
  apply scanEntries_cap. simpl. lia.
Qed.

End ArtifactWalk.

(** * The Lab projects *)

Section LabProjects.

Variable up : Upstream.

Lemma collectProjects_map (labRepos : list Repo) :
  collectProjects up labRepos = map (projectOf up) labRepos.
Proof. unfold collectProjects. by rewrite fold_left_push. Qed.

Lemma renderLabProjects_resolved (now : nat -> Timestamp) (repos : list Repo) :
  user_repos_updated up = Resolved repos ->
  labReposOf repos <> [] ->
  renderLabProjects up now
  = ProjectList (imap (fun i p => projectView (now i) p)
                      (map (projectOf up) (labReposOf repos))).
Proof.
  intros Hrepos Hsome. unfold renderLabProjects. rewrite Hrepos.
  destruct (labReposOf repos) as [|repo labRepos]; [done |].
  by rewrite collectProjects_map.
Qed.

(** The status of a project is [waiting] exactly when the open-issues
    request resolves with at least one issue. *)
Lemma projectOf_status (repo : Repo) :
  proj_status (projectOf up repo)
  = match repo_issues up (repo_name repo) with
    | Resolved (_ :: _) => "waiting"
    | _ => "active"
    end.
Proof.
  unfold projectOf. simpl.
  by destruct (repo_issues up (repo_name repo)) as [[|issue issues]|message].
Qed.

(** C8. Every repository that [renderLabProjects] lists is shown with
    status waiting when its open-issues request resolves with at least
    one issue, and active when it resolves with none or when it rejects
    (the failure is swallowed, the section is still rendered); the
    repository Lab.Chord.Widget is shown with kind chord. *)
Theorem lab_project_status
    (now : nat -> Timestamp) (repos : list Repo) (i : nat) (repo : Repo) :
  user_repos_updated up = Resolved repos ->
  labReposOf repos !! i = Some repo ->
  exists views v,
    renderLabProjects up now = ProjectList views
    /\ length views = length (labReposOf repos)
    /\ views !! i = Some v
    /\ pv_url v = repo_html_url repo
    /\ (repo_name repo = "Lab.Chord.Widget" ->
        pv_type v = "chord" /\ pv_name v = "Chord.Widget")
    /\ (forall issues,
          repo_issues up (repo_name repo) = Resolved issues ->
          issues <> [] -> pv_status v = "waiting" /\ pv_badge v = "awaiting")
    /\ (repo_issues up (repo_name repo) = Resolved [] ->
        pv_status v = "active" /\ pv_badge v = "active")
    /\ (forall message,
          repo_issues up (repo_name repo) = Rejected message ->
          pv_status v = "active" /\ pv_badge v = "active").
Proof.
  intros Hrepos Hi.
  assert (Hsome : labReposOf repos <> []) by (intros Hnil; by rewrite Hnil in Hi).
  rewrite (renderLabProjects_resolved now repos Hrepos Hsome).
  eexists _, (projectView (now i) (projectOf up repo)).
  split; [reflexivity |]. split; [by rewrite length_imap, length_map |].
  split.
  { rewrite list_lookup_imap.
    change (map ?f ?l) with (f <$> l). by rewrite list_lookup_fmap, Hi. }
  split; [reflexivity |].
  unfold projectView. cbn [pv_status pv_badge pv_type pv_name].
  rewrite projectOf_status.
  split; [| split; [| split]].
  - intros Hname. unfold projectOf. simpl. by rewrite Hname.
  - intros issues -> Hne. by destruct issues.
  - by intros ->.
  - by intros message ->.
Qed.

End LabProjects.

(** Lab.Chord.Widget with one open issue, with none, and with an issues
    request that rejects. *)
Lemma widget_waiting_or_active :
  (exists views v,
     renderLabProjects (widgetOnly (Resolved [ {| issue_number := 7 |} ])) (fun _ => 0)
     = ProjectList views
     /\ views !! 0%nat = Some v
     /\ pv_type v = "chord" /\ pv_status v = "waiting")
  /\ (exists views v,
        renderLabProjects (widgetOnly (Resolved [])) (fun _ => 0) = ProjectList views
        /\ views !! 0%nat = Some v
        /\ pv_status v = "active")
  /\ (exists views v,
        renderLabProjects (widgetOnly (Rejected "GitHub API error: 403")) (fun _ => 0)
        = ProjectList views
        /\ views !! 0%nat = Some v
        /\ pv_status v = "active").
Proof.
  split; [| split].
  - destruct (lab_project_status (widgetOnly (Resolved [ {| issue_number := 7 |} ]))
                (fun _ => 0) [widget] 0%nat widget eq_refl eq_refl)
      as (views & v & Hviews & _ & Hv & _ & Hkind & Hwaiting & _).
    exists views, v. split; [exact Hviews |]. split; [exact Hv |].
    split; [exact (proj1 (Hkind eq_refl)) |].
    exact (proj1 (Hwaiting _ eq_refl ltac:(discriminate))).
  - destruct (lab_project_status (widgetOnly (Resolved [])) (fun _ => 0)
                [widget] 0%nat widget eq_refl eq_refl)
      as (views & v & Hviews & _ & Hv & _ & _ & _ & Hnone & _).
    exists views, v. split; [exact Hviews |]. split; [exact Hv |].
    exact (proj1 (Hnone eq_refl)).
  - destruct (lab_project_status (widgetOnly (Rejected "GitHub API error: 403"))
                (fun _ => 0) [widget] 0%nat widget eq_refl eq_refl)
      as (views & v & Hviews & _ & Hv & _ & _ & _ & _ & Hfail).
    exists views, v. split; [exact Hviews |]. split; [exact Hv |].
    exact (proj1 (Hfail _ eq_refl)).
Defined.

(** * A full pass *)

Section Refresh.

Context {host : Js.Host}.

Lemma renderTranscriptJobs_readings up (now1 now2 : nat -> Timestamp) :
  (forall i, now1 i = now2 i) ->
  renderTranscriptJobs up now1 = renderTranscriptJobs up now2.
Proof.
  intros Hnow. unfold renderTranscriptJobs.
  destruct (transcript_runs up) as [runs|message]; [| done].
  destruct (workflow_runs runs) as [[|run rs]|]; try done.
  f_equal. apply imap_ext. intros i r _. simpl. by rewrite Hnow.
Qed.

Lemma renderLibraryArtifacts_readings up (now1 now2 : nat -> Timestamp) :
  (forall i, now1 i = now2 i) ->
  renderLibraryArtifacts up now1 = renderLibraryArtifacts up now2.
Proof.
  intros Hnow. unfold renderLibraryArtifacts.
  destruct (library_commits up) as [[[|commit commits]|]|message]; try done.
  destruct (collectArtifacts up (commit :: commits)) as [|a arts]; [done |].
  f_equal. apply imap_ext. intros i a' _. simpl. by rewrite Hnow.
Qed.

Lemma renderLabProjects_readings up (now1 now2 : nat -> Timestamp) :
  (forall i, now1 i = now2 i) ->
  renderLabProjects up now1 = renderLabProjects up now2.
Proof.
  intros Hnow. unfold renderLabProjects.
  destruct (user_repos_updated up) as [repos|message]; [| done].
  destruct (labReposOf repos) as [|repo labRepos]; [done |].
  f_equal. apply imap_ext. intros i p _. simpl. by rewrite Hnow.
Qed.

Lemma refreshAll_readings (up : Upstream) (c1 c2 : Clock) :
  sameReadings c1 c2 -> refreshAll up c1 = refreshAll up c2.
Proof.
  intros (Hjobs & Harts & Hprojs & Hend). unfold refreshAll.
  rewrite (renderTranscriptJobs_readings up _ _ Hjobs).
  rewrite (renderLibraryArtifacts_readings up _ _ Harts).
  rewrite (renderLabProjects_readings up _ _ Hprojs).
  by rewrite Hend.
Qed.

(** ** Only the ages read the clock *)

Lemma withoutJobAges_clock up (now1 now2 : nat -> Timestamp) :
  withoutJobAges (renderTranscriptJobs up now1)
  = withoutJobAges (renderTranscriptJobs up now2).
Proof.
  unfold renderTranscriptJobs.
  destruct (transcript_runs up) as [runs|message]; [| done].
  destruct (workflow_runs runs) as [[|run rs]|]; try done.
  unfold withoutJobAges. f_equal. rewrite !fmap_imap. by apply imap_ext.
Qed.

Lemma withoutArtifactAges_clock up (now1 now2 : nat -> Timestamp) :
  withoutArtifactAges (renderLibraryArtifacts up now1)
  = withoutArtifactAges (renderLibraryArtifacts up now2).
Proof.
  unfold renderLibraryArtifacts.
  destruct (library_commits up) as [[[|commit commits]|]|message]; try done.
  destruct (collectArtifacts up (commit :: commits)) as [|a arts]; [done |].
  unfold withoutArtifactAges. f_equal. rewrite !fmap_imap. by apply imap_ext.
Qed.

Lemma withoutProjectAges_clock up (now1 now2 : nat -> Timestamp) :
  withoutProjectAges (renderLabProjects up now1)
  = withoutProjectAges (renderLabProjects up now2).
Proof.
  unfold renderLabProjects.
  destruct (user_repos_updated up) as [repos|message]; [| done].
  destruct (labReposOf repos) as [|repo labRepos]; [done |].
  unfold withoutProjectAges. f_equal. rewrite !fmap_imap. by apply imap_ext.
Qed.

(** ** Each age is [timeAgo] of a date of the upstream *)

Lemma ages_of_jobs up (now : nat -> Timestamp) :
  agesOf (Jobs (renderTranscriptJobs up now))
  = imap (fun i run => timeAgo (now i) (run_created_at run)) (listedRuns up).
Proof.
  unfold renderTranscriptJobs, listedRuns.
  destruct (transcript_runs up) as [runs|message]; [| done].
  destruct (workflow_runs runs) as [[|run rs]|]; try done.
  cbn [agesOf default from_option id]. rewrite fmap_imap. by apply imap_ext.
Qed.

Lemma ages_of_artifacts up (now : nat -> Timestamp) :
  agesOf (Artifacts (renderLibraryArtifacts up now))
  = imap (fun i a => timeAgo (now i) (art_date a)) (listedArtifacts up).
Proof.
  unfold renderLibraryArtifacts, listedArtifacts.
  destruct (library_commits up) as [[[|commit commits]|]|message]; try done.
  destruct (collectArtifacts up (commit :: commits)) as [|a arts]; [done |].
  cbn [agesOf]. rewrite fmap_imap. by apply imap_ext.
Qed.

Lemma ages_of_projects up (now : nat -> Timestamp) :
  agesOf (Projects (renderLabProjects up now))
  = imap (fun i p => timeAgo (now i) (proj_updated p)) (listedProjects up).
Proof.
  unfold renderLabProjects, listedProjects.
  destruct (user_repos_updated up) as [repos|message]; [| done].
  destruct (labReposOf repos) as [|repo labRepos]; [done |].
  cbn [agesOf]. rewrite fmap_imap. by apply imap_ext.
Qed.

(** ** A content is its ages and the rest *)

Lemma list_from_parts {A B C : Type} (f : A -> B) (g : A -> C) :
  (forall x y, f x = f y -> g x = g y -> x = y) ->
  forall l1 l2 : list A, f <$> l1 = f <$> l2 -> g <$> l1 = g <$> l2 -> l1 = l2.
Proof.
  intros Hinj. induction l1 as [|x l1 IH]; intros [|y l2]; try done.
  intros [= Hf Hfs] [= Hg Hgs]. f_equal; [by apply Hinj | by apply IH].
Qed.

Lemma content_from_parts (c1 c2 : Content) :
  withoutAges c1 = withoutAges c2 -> agesOf c1 = agesOf c2 -> c1 = c2.
Proof.
  destruct c1 as [e1|t1|[|v1|m1]|[|v1|m1]|[|v1|m1]|t1],
           c2 as [e2|t2|[|v2|m2]|[|v2|m2]|[|v2|m2]|t2];
    simpl; try done; try congruence.
  - intros [= Hrest] Hages. do 2 f_equal. revert Hrest Hages.
    apply list_from_parts. intros [] [].
    unfold withoutJobAge, withoutArtifactAge, withoutProjectAge. simpl.
    intros; congruence.
  - intros [= Hrest] Hages. do 2 f_equal. revert Hrest Hages.
    apply list_from_parts. intros [] [].
    unfold withoutJobAge, withoutArtifactAge, withoutProjectAge. simpl.
    intros; congruence.
  - intros [= Hrest] Hages. do 2 f_equal. revert Hrest Hages.
    apply list_from_parts. intros [] [].
    unfold withoutJobAge, withoutArtifactAge, withoutProjectAge. simpl.
    intros; congruence.
Qed.

Lemma page_from_parts (m1 m2 : gmap string Content) :
  withoutAges <$> m1 = withoutAges <$> m2 ->
  agesOf <$> m1 = agesOf <$> m2 ->
  m1 = m2.
Proof.
  intros Hrest Hages. apply map_eq. intros i.
  apply (f_equal (fun m => m !! i)) in Hrest, Hages.
  rewrite !lookup_fmap in Hrest. rewrite !lookup_fmap in Hages.
  destruct (m1 !! i) as [c1|], (m2 !! i) as [c2|]; simpl in *; try done.
  f_equal. apply content_from_parts; congruence.
Qed.

(** ** A pass overwrites *)

Lemma fold_assign_union (ws : list (string * Content)) :
  forall m page : gmap string Content,
    fold_left assign ws (m ∪ page) = fold_left assign ws m ∪ page.
Proof.
  induction ws as [|w ws IH]; intros m page; simpl; [done |].
  rewrite <- IH. f_equal. unfold assign. apply insert_union_l.
Qed.

(** The assignments of the sections can land in any order. *)
Lemma section_writes_in_any_order (up : Upstream) (clock : Clock)
    (ws : list (string * Content)) (page : gmap string Content) :
  ws ≡ₚ sectionWrites up clock ->
  fold_left assign ws page = fold_left assign (sectionWrites up clock) page.
Proof.
  assert (Hperm : forall ws1 ws2 : list (string * Content),
             ws1 ≡ₚ ws2 -> NoDup ws1.*1 ->
             forall m, fold_left assign ws1 m = fold_left assign ws2 m).
  { induction 1 as [|w ws1 ws2 Hp IH|w1 w2 ws0|ws1 ws2 ws3 Hp12 IH12 Hp23 IH23];
      intros Hnd m; simpl.
    - done.
    - apply IH. by apply NoDup_cons in Hnd as [_ Hnd].
    - f_equal. unfold assign. apply insert_insert_ne.
      apply NoDup_cons in Hnd as [Hnotin _]. intros Heq. apply Hnotin.
      rewrite Heq. by left.
    - rewrite IH12 by done. apply IH23. by rewrite <- Hp12. }
  intros Hws. apply Hperm; [done |]. rewrite Hws.
  unfold sectionWrites. cbn [fmap list_fmap fst].
  repeat (apply NoDup_cons; split; [by rewrite !list_elem_of_In; simpl; intuition discriminate |]).
  apply NoDup_nil_2.
Qed.

(** What a pass writes lies over what the page held. *)
Lemma refreshPage_union (up : Upstream) (clock : Clock) (page : gmap string Content) :
  refreshPage up clock page = refreshPage up clock ∅ ∪ page.
Proof.
  unfold refreshPage. cbv zeta.
  rewrite <- insert_union_l, <- fold_assign_union, <- insert_union_l.
  by rewrite (left_id_L ∅ (∪)).
Qed.

Lemma dom_refreshPage (up : Upstream) (clock : Clock) :
  dom (refreshPage up clock ∅) = targets.
Proof.
  unfold refreshPage, sectionWrites, targets, assign. cbv zeta. cbn [fold_left fst snd].
  rewrite !dom_insert_L, dom_empty_L. set_solver.
Qed.

Lemma union_absorb (m m1 m2 : gmap string Content) :
  dom m1 ⊆ dom m -> m ∪ (m1 ∪ m2) = m ∪ m2.
Proof.
  intros Hsub. apply map_eq. intros i. rewrite !lookup_union.
  destruct (m !! i) as [x|] eqn:Hm; [by destruct (m1 !! i), (m2 !! i) |].
  assert (m1 !! i = None) as ->; [| by destruct (m2 !! i)].
  apply not_elem_of_dom. intros Hi%Hsub. by apply not_elem_of_dom in Hm.
Qed.

Lemma refreshPage_jobs (up : Upstream) (clock : Clock) (page : gmap string Content) :
  refreshPage up clock page !! "transcript-jobs"
  = Some (Jobs (renderTranscriptJobs up (jobs_now clock))).
Proof.
  unfold refreshPage, sectionWrites, assign. cbv zeta. cbn [fold_left fst snd].
  repeat (rewrite lookup_insert_ne by done). apply lookup_insert_eq.
Qed.

Lemma refreshPage_artifacts (up : Upstream) (clock : Clock) (page : gmap string Content) :
  refreshPage up clock page !! "library-artifacts"
  = Some (Artifacts (renderLibraryArtifacts up (artifacts_now clock))).
Proof.
  unfold refreshPage, sectionWrites, assign. cbv zeta. cbn [fold_left fst snd].
  repeat (rewrite lookup_insert_ne by done). apply lookup_insert_eq.
Qed.

Lemma refreshPage_project (up : Upstream) (clock : Clock) (page : gmap string Content) :
  refreshPage up clock page !! "lab-projects"
  = Some (Projects (lab_projects (refreshAll up clock))).
Proof.
  unfold refreshPage, sectionWrites, assign. cbv zeta. cbn [fold_left fst snd].
  rewrite lookup_insert_ne by done. apply lookup_insert_eq.
Qed.

Lemma refreshPage_stamp (up : Upstream) (clock : Clock) (page : gmap string Content) :
  refreshPage up clock page !! "last-updated"
  = Some (Stamp (Js.toLocaleString (finished_at clock))).
Proof. unfold refreshPage. cbv zeta. apply lookup_insert_eq. Qed.

Lemma withoutAges_refreshPage (up : Upstream) (c1 c2 : Clock) :
  withoutAges <$> refreshPage up c2 ∅ = withoutAges <$> refreshPage up c1 ∅.
Proof.
  unfold refreshPage, sectionWrites, assign, refreshAll. cbv zeta.
  cbn [fold_left fst snd system_status stats transcript_jobs library_artifacts
       lab_projects last_updated].
  rewrite !fmap_insert. cbn [withoutAges].
  rewrite (withoutJobAges_clock up (jobs_now c2) (jobs_now c1)).
  rewrite (withoutArtifactAges_clock up (artifacts_now c2) (artifacts_now c1)).
  by rewrite (withoutProjectAges_clock up (projects_now c2) (projects_now c1)).
Qed.

(** C9, amended. A second pass of [refreshAll] against the same
    upstream leaves the page as a single pass with its clock would:
    nothing of the first pass is kept or added to, and the elements that
    a pass does not assign stay as they were.  The page after the second
    pass is the page after the first in everything but the relative ages
    and the stamp: with these blanked the two pages are equal whatever
    the two clocks read.  The records behind the lists, with the dates
    the upstream gave, do not depend on the clock: in every pass the
    ages shown are [timeAgo], at the readings of that pass, of the
    creation dates of the same runs, of the commit dates of the same
    artifacts and of the update dates of the same projects, and the stamp
    is the reading at the end of the pass.  The two pages are equal
    exactly when the ages and the stamp shown after the second pass are
    those shown after the first, as they are when both passes read the
    same values off the clock. *)
Theorem second_pass_repeats_all_but_ages
    (up : Upstream) (c1 c2 : Clock) (page : gmap string Content) :
  let first := refreshPage up c1 page in
  let second := refreshPage up c2 first in
  second = refreshPage up c2 page
  /\ (forall id, id ∉ targets -> second !! id = page !! id)
  /\ withoutAges <$> second = withoutAges <$> first
  /\ (forall (c : Clock) (before : gmap string Content),
        agesOf <$> refreshPage up c before !! "transcript-jobs"
        = Some (imap (fun i run => timeAgo (jobs_now c i) (run_created_at run))
                  (listedRuns up))
        /\ agesOf <$> refreshPage up c before !! "library-artifacts"
           = Some (imap (fun i a => timeAgo (artifacts_now c i) (art_date a))
                     (listedArtifacts up))
        /\ agesOf <$> refreshPage up c before !! "lab-projects"
           = Some (imap (fun i p => timeAgo (projects_now c i) (proj_updated p))
                     (listedProjects up))
        /\ refreshPage up c before !! "last-updated"
           = Some (Stamp (Js.toLocaleString (finished_at c))))
  /\ (second = first <-> agesOf <$> second = agesOf <$> first)
  /\ (sameReadings c1 c2 -> second = first).
Proof.
  intros first second.
  assert (Hsecond : second = refreshPage up c2 page).
  { subst first second. rewrite (refreshPage_union up c2 (refreshPage up c1 page)).
    rewrite (refreshPage_union up c1 page), (refreshPage_union up c2 page).
    apply union_absorb. by rewrite !dom_refreshPage. }
  assert (Hrest : withoutAges <$> second = withoutAges <$> first).
  { rewrite Hsecond. subst first.
    rewrite (refreshPage_union up c2 page), (refreshPage_union up c1 page).
    by rewrite !map_fmap_union, (withoutAges_refreshPage up c1 c2). }
  split; [exact Hsecond |]. split; [| split; [exact Hrest | split; [| split]]].
  - intros id Hid. rewrite Hsecond, refreshPage_union, lookup_union_r; [done |].
    apply not_elem_of_dom. by rewrite dom_refreshPage.
  - intros c before.
    rewrite refreshPage_jobs, refreshPage_artifacts, refreshPage_project, refreshPage_stamp.
    cbn [fmap option_fmap option_map refreshAll lab_projects].
    by rewrite ages_of_jobs, ages_of_artifacts, ages_of_projects.
  - split; [by intros -> | by apply page_from_parts].
  - intros Hsame. rewrite Hsecond. subst first.
    unfold refreshPage, sectionWrites. by rewrite (refreshAll_readings up c1 c2 Hsame).
Qed.

End Refresh.

(** C9, as stated, fails: the sections show ages relative to the clock
    of the pass.  Against one upstream (Lab.Chord.Widget, updated at time
    0, no open issue) a pass at 30 s shows the project as updated just
    now and a pass at 90 s, one refresh interval later, shows 1m ago:
    what the two passes write differs, and the page after the second
    pass is not the page after the first. *)
Lemma refreshAll_depends_on_clock :
  (forall host : Js.Host,
     lab_projects (refreshAll (widgetOnly (Resolved [])) (readingsAt 30000))
     = ProjectList [ {| pv_url := "https://github.com/bobbyhiddn/Lab.Chord.Widget";
                        pv_name := "Chord.Widget"; pv_time := "just now";
                        pv_type := "chord"; pv_status := "active";
                        pv_badge := "active" |} ])
  /\ (forall host : Js.Host,
        lab_projects (refreshAll (widgetOnly (Resolved [])) (readingsAt 90000))
        = ProjectList [ {| pv_url := "https://github.com/bobbyhiddn/Lab.Chord.Widget";
                           pv_name := "Chord.Widget"; pv_time := "1m ago";
                           pv_type := "chord"; pv_status := "active";
                           pv_badge := "active" |} ])
  /\ (forall host : Js.Host,
        refreshAll (widgetOnly (Resolved [])) (readingsAt 30000)
        <> refreshAll (widgetOnly (Resolved [])) (readingsAt 90000))
  /\ (forall (host : Js.Host) (page : gmap string Content),
        refreshPage (widgetOnly (Resolved [])) (readingsAt 90000)
          (refreshPage (widgetOnly (Resolved [])) (readingsAt 30000) page)
        <> refreshPage (widgetOnly (Resolved [])) (readingsAt 30000) page).
Proof.
  split; [by intros host; vm_compute | split; [by intros host; vm_compute |]].
  split.
  - intros host Heq. apply (f_equal lab_projects) in Heq. vm_compute in Heq. discriminate.
  - intros host page Heq. apply (f_equal (fun m => m !! "lab-projects")) in Heq.
    rewrite !refreshPage_project in Heq. vm_compute in Heq. discriminate.
Qed.

(** Two passes within the same second, at 30.0 s and at 30.4 s, on the
    sample host: every age falls in the same bucket and the stamp shows
    the same second, so the second pass leaves the page as the first
    did. *)
Lemma second_pass_same_bucket :
  refreshPage (host := Js.asciiHost) (widgetOnly (Resolved [])) (readingsAt 30400)
    (refreshPage (host := Js.asciiHost) (widgetOnly (Resolved [])) (readingsAt 30000) ∅)
  = refreshPage (host := Js.asciiHost) (widgetOnly (Resolved [])) (readingsAt 30000) ∅.
Proof.
  apply (proj2 (proj1 (proj2 (proj2 (proj2 (proj2
           (second_pass_repeats_all_but_ages (host := Js.asciiHost)
              (widgetOnly (Resolved [])) (readingsAt 30000) (readingsAt 30400) ∅))))))).
  by vm_compute.
Defined.

(** * Further properties: the request layer *)

Section RequestLayer.

(** X1. Every request of [githubFetch] carries the JSON accept header;
    it carries an authorization header exactly when the token input is
    not empty, and then the header is Bearer followed by the token;
    nothing else is sent.  An empty organisation input falls back to
    bobbyhiddn. *)
Theorem request_headers (orgInput tokenInput endpoint : string) :
  let request := requestOf (getConfig orgInput tokenInput) endpoint in
  req_headers request !! "Accept" = Some "application/vnd.github+json"
  /\ req_headers request !! "Authorization"
     = (if String.eqb tokenInput "" then None else Some ("Bearer " +:+ tokenInput))
  /\ (forall name, name <> "Accept" -> name <> "Authorization" ->
        req_headers request !! name = None)
  /\ (org (getConfig orgInput tokenInput) = "bobbyhiddn" <->
      orgInput = "" \/ orgInput = "bobbyhiddn").
Proof.
  cbv zeta. unfold requestOf, headersOf, getConfig. cbn [req_headers token org].
  assert (Horg : (if String.eqb orgInput "" then "bobbyhiddn" else orgInput) = "bobbyhiddn"
                 <-> orgInput = "" \/ orgInput = "bobbyhiddn").
  { destruct (String.eqb_spec orgInput "") as [-> | Hne].
    - split; [by left | done].
    - split; [by right | by intros [? | ?]]. }
  destruct (String.eqb_spec tokenInput "") as [-> | Hne]; cbn [token].
  - split; [apply lookup_singleton_eq |].
    split; [by apply lookup_singleton_ne |].
    split; [intros name Ha _; by apply lookup_singleton_ne | exact Horg].
  - apply String.eqb_neq in Hne as Hb. rewrite Hb.
    split; [by rewrite lookup_insert_ne, lookup_singleton_eq |].
    split; [apply lookup_insert_eq |].
    split; [| exact Horg].
    intros name Ha Hb'. rewrite lookup_insert_ne by done. by apply lookup_singleton_ne.
Qed.

(** X2. [githubFetch] hands its caller a body only when the transport
    answered, the response was ok and its JSON decoded; a response that
    is not ok is turned into an error that names the status, and a
    network failure is passed on with its message. *)
Theorem githubFetch_outcomes {A : Type}
    (fetch : Request -> Fetched (Response A)) (config : Config) (endpoint : string) :
  (forall body,
     githubFetch fetch config endpoint = Resolved body <->
     exists response,
       fetch (requestOf config endpoint) = Resolved response
       /\ resp_ok response = true
       /\ resp_json response = Resolved body)
  /\ (forall response,
        fetch (requestOf config endpoint) = Resolved response ->
        resp_ok response = false ->
        githubFetch fetch config endpoint
        = Rejected ("GitHub API error: " +:+ Js.ofZ (resp_status response)))
  /\ (forall message,
        fetch (requestOf config endpoint) = Rejected message ->
        githubFetch fetch config endpoint = Rejected message).
Proof.
  unfold githubFetch. split; [| split].
  - intros body. destruct (fetch (requestOf config endpoint)) as [response|message].
    + destruct (resp_ok response) eqn:Hok; simpl; split.
      * intros Hbody. by exists response.
      * intros (r & [= <-] & _ & Hbody). done.
      * discriminate.
      * intros (r & [= <-] & Hok' & _). congruence.
    + split; [discriminate | by intros (r & Hr & _)].
  - intros response -> ->. reflexivity.
  - intros message ->. reflexivity.
Qed.

(** A 404 answer, although it carries a JSON body, reaches the caller as
    an error. *)
Lemma githubFetch_not_found :
  githubFetch (answering false 404) (getConfig "" "") "/repos/bobbyhiddn/none/actions/runs"
  = Rejected "GitHub API error: 404".
Proof.
  apply (proj1 (proj2 (githubFetch_outcomes (answering false 404) (getConfig "" "")
                         "/repos/bobbyhiddn/none/actions/runs"))
           {| resp_ok := false; resp_status := 404;
              resp_json := Resolved {| total_count := Some 0; workflow_runs := Some [] |} |});
    reflexivity.
Defined.

End RequestLayer.

(** * Further properties: relative ages *)

Section Ages.

Lemma seconds_bounds (age k : Z) :
  (age / 1000 <? k) = (age <? k * 1000).
Proof.
  pose proof (Z.div_mod age 1000 ltac:(lia)) as Hdiv.
  pose proof (Z.mod_pos_bound age 1000 ltac:(lia)) as Hmod.
  destruct (Z.ltb_spec (age / 1000) k) as [H | H];
    destruct (Z.ltb_spec age (k * 1000)) as [H' | H']; try done; lia.
Qed.

(** X3. The label of [timeAgo] by the age of the date, in milliseconds:
    just now below one minute (and for a date in the future); whole
    minutes from 1 to 59 below one hour; whole hours from 1 to 23 below
    one day; whole days, at least 1, from then on.  It never shows 0 or
    60 minutes, nor 0 or 24 hours. *)
Theorem timeAgo_buckets (now date : Timestamp) :
  let age := now - date in
  (age < 60000 -> timeAgo now date = "just now")
  /\ (60000 <= age < 3600000 ->
      exists m, 1 <= m <= 59 /\ m = age / 60000
                /\ timeAgo now date = Js.ofZ m +:+ "m ago")
  /\ (3600000 <= age < 86400000 ->
      exists h, 1 <= h <= 23 /\ h = age / 3600000
                /\ timeAgo now date = Js.ofZ h +:+ "h ago")
  /\ (86400000 <= age ->
      exists d, 1 <= d /\ d = age / 86400000
                /\ timeAgo now date = Js.ofZ d +:+ "d ago").
Proof.
  intros age. unfold timeAgo. fold age. cbv zeta.
  rewrite !seconds_bounds.
  change (60 * 1000) with 60000. change (3600 * 1000) with 3600000.
  change (86400 * 1000) with 86400000.
  assert (Hm : age / 1000 / 60 = age / 60000) by (rewrite Z.div_div by lia; reflexivity).
  assert (Hh : age / 1000 / 3600 = age / 3600000) by (rewrite Z.div_div by lia; reflexivity).
  assert (Hd : age / 1000 / 86400 = age / 86400000) by (rewrite Z.div_div by lia; reflexivity).
  rewrite Hm, Hh, Hd.
  destruct (Z.ltb_spec age 60000) as [H1 | H1];
    [| destruct (Z.ltb_spec age 3600000) as [H2 | H2];
       [| destruct (Z.ltb_spec age 86400000) as [H3 | H3] ] ].
  - repeat split; intros; first [done | lia].
  - split; [intros; lia |]. split; [| split; intros; lia].
    intros _. exists (age / 60000). split; [| done].
    split; [apply Z.div_le_lower_bound; lia | ].
    assert (age / 60000 < 60) by (apply Z.div_lt_upper_bound; lia). lia.
  - split; [intros; lia |]. split; [intros; lia |]. split; [| intros; lia].
    intros _. exists (age / 3600000). split; [| done].
    split; [apply Z.div_le_lower_bound; lia | ].
    assert (age / 3600000 < 24) by (apply Z.div_lt_upper_bound; lia). lia.
  - split; [intros; lia |]. split; [intros; lia |]. split; [intros; lia |].
    intros _. exists (age / 86400000). split; [| done].
    apply Z.div_le_lower_bound; lia.
Qed.

End Ages.

(** * Further properties: job trees and transcript jobs *)

Section Trees.

Context {host : Js.Host}.

Lemma filter_isRoot_steps (steps : list Step) :
  List.filter isRoot (map stepItem steps) = [].
Proof. induction steps as [|step steps IH]; simpl; done. Qed.

Lemma filter_isRoot_jobs (js : list Job) :
  List.filter isRoot
    (flat_map (fun job => rootItem job :: map stepItem (keptSteps job)) js)
  = map rootItem js.
Proof.
  induction js as [|job js IH]; simpl; [done |].
  by rewrite List.filter_app, filter_isRoot_steps, IH.
Qed.

Lemma children_not_boilerplate (js : list Job) (icon label : string) :
  TreeChild icon label
    ∈ flat_map (fun job => rootItem job :: map stepItem (keptSteps job)) js ->
  isBoilerplate label = false.
Proof.
  intros Hin. apply list_elem_of_In, in_flat_map in Hin as (job & _ & [Hroot | Hstep]).
  - discriminate.
  - apply in_map_iff in Hstep as (step & [= _ <-] & Hkept).
    unfold keptSteps in Hkept. apply filter_In in Hkept as [_ Hkeep].
    by apply negb_true_iff.
Qed.

(** X4. [buildJobTree] answers with the no-details marker exactly when
    the job list is absent or empty.  Otherwise the root items of its tree
    are the jobs, one per job and in order, also for a job without steps
    or with boilerplate steps only; no step item carries a boilerplate
    name; and the tree has at most one item per job and step. *)
Theorem job_tree_shape (jobs : option (list Job)) :
  (buildJobTree jobs = NoJobDetails <-> jobs = None \/ jobs = Some [])
  /\ buildJobTree jobs <> CouldNotLoadJobs
  /\ forall items,
       buildJobTree jobs = Tree items ->
       exists js,
         jobs = Some js
         /\ List.filter isRoot items = map rootItem js
         /\ (forall icon label, TreeChild icon label ∈ items -> isBoilerplate label = false)
         /\ (length items
             <= length js
                + length (flat_map (fun job => default [] (job_steps job)) js))%nat.
Proof.
  destruct jobs as [[|job js]|]; simpl.
  - split; [split; [by right | done] |]. split; [done |]. discriminate.
  - rewrite addJob_items, addJob_loop. simpl.
    split; [split; [discriminate | by intros [? | ?]] |]. split; [done |].
    intros items [= <-]. exists (job :: js). split; [done |].
    change (rootItem job :: map stepItem (keptSteps job)
            ++ flat_map (fun j => rootItem j :: map stepItem (keptSteps j)) js)
      with (flat_map (fun j => rootItem j :: map stepItem (keptSteps j)) (job :: js)).
    split; [apply filter_isRoot_jobs |].
    split; [apply children_not_boilerplate |].
    generalize (job :: js). clear. intros js.
    induction js as [|job js IH]; simpl; [done |].
    rewrite !length_app, length_map. unfold keptSteps at 1.
    pose proof (List.filter_length_le
                  (fun step => negb (isBoilerplate (step_name step)))
                  (default [] (job_steps job))).
    lia.
  - split; [split; [by left | done] |]. split; [done |]. discriminate.
Qed.

(** X5. The glyph and the class of a job always go together: the glyph
    is the one of the class, and the class is one of success, failure,
    running and pending. *)
Theorem glyph_matches_class (status conclusion : option string) :
  statusIcon status conclusion = iconOfClass (statusClass status conclusion)
  /\ statusClass status conclusion ∈ ["success"; "failure"; "running"; "pending"]
  /\ (statusClass status conclusion = "success" <-> conclusion = Some "success")
  /\ (statusClass status conclusion = "failure" <-> conclusion = Some "failure").
Proof.
  unfold statusIcon, statusClass, iconOfClass.
  destruct (Js.strictEq conclusion "success") eqn:Hs;
    [| destruct (Js.strictEq conclusion "failure") eqn:Hf;
       [| destruct (Js.strictEq status "in_progress") eqn:Hp ] ];
  rewrite ?strictEq_Some, ?strictEq_false in *;
  (split; [reflexivity |]); (split; [set_solver |]);
  split; split; (congruence || discriminate).
Qed.

End Trees.

Section TranscriptJobs.

Context {host : Js.Host}.
Variable up : Upstream.

(** X6. When the run listing resolves with runs, [renderTranscriptJobs]
    shows one entry per run, in order; an entry whose job-details request
    rejects shows the could-not-load marker and the other entries are not
    affected: each shows the tree of its own jobs. *)
Theorem transcript_jobs_fault_isolation
    (now : nat -> Timestamp) (page : RunsPage) (rs : list Run) :
  transcript_runs up = Resolved page ->
  workflow_runs page = Some rs ->
  rs <> [] ->
  exists views,
    renderTranscriptJobs up now = JobList views
    /\ length views = length rs
    /\ forall i run,
         rs !! i = Some run ->
         exists v,
           views !! i = Some v
           /\ jv_url v = run_html_url run
           /\ jv_time v = timeAgo (now i) (run_created_at run)
           /\ (forall message,
                 run_jobs up (run_id run) = Rejected message ->
                 jv_tree v = CouldNotLoadJobs)
           /\ (forall jobsPage,
                 run_jobs up (run_id run) = Resolved jobsPage ->
                 jv_tree v = buildJobTree (jobs jobsPage)).
Proof.
  intros Hruns Hpage Hsome. unfold renderTranscriptJobs. rewrite Hruns, Hpage.
  destruct rs as [|r rs]; [done |].
  eexists. split; [reflexivity |]. split; [by rewrite length_imap |].
  intros i run Hi. exists (jobView up (now i) run).
  split; [by rewrite list_lookup_imap, Hi |].
  split; [reflexivity |]. split; [reflexivity |].
  unfold jobView. cbn [jv_tree]. split.
  - by intros message ->.
  - by intros jobsPage ->.
Qed.

End TranscriptJobs.

(** Two runs, the job details of the second unavailable: two entries,
    the first with its tree, the second with the marker. *)
Lemma transcript_jobs_second_down :
  exists v1 v2,
    renderTranscriptJobs (host := Js.asciiHost) twoRuns (fun _ => 0) = JobList [v1; v2]
    /\ jv_tree v1 = buildJobTree (host := Js.asciiHost) (Some [buildAndTest])
    /\ jv_tree v2 = CouldNotLoadJobs.
Proof.
  destruct (transcript_jobs_fault_isolation (host := Js.asciiHost) twoRuns (fun _ => 0)
              {| total_count := Some 2; workflow_runs := Some [firstRun; secondRun] |}
              [firstRun; secondRun] eq_refl eq_refl ltac:(discriminate))
    as (views & Hviews & Hlen & Hentries).
  destruct (Hentries 0%nat firstRun eq_refl) as (v1 & H1 & _ & _ & _ & Htree1).
  destruct (Hentries 1%nat secondRun eq_refl) as (v2 & H2 & _ & _ & Hdown2 & _).
  exists v1, v2. split; [| split].
  - rewrite Hviews. f_equal.
    destruct views as [|w1 [|w2 [|w3 ws]]]; try discriminate.
    simpl in H1, H2. congruence.
  - exact (Htree1 {| jobs := Some [buildAndTest] |} eq_refl).
  - exact (Hdown2 "GitHub API error: 404" eq_refl).
Defined.

(** * Further properties: the artifact list *)

Section ArtifactList.

Lemma visited_app up (cs1 cs2 : list Commit) :
  visited up (cs1 ++ cs2) = visited up cs1 ++ visited up cs2.
Proof. unfold visited. apply flat_map_app. Qed.

Lemma admitted_eligible (seen : gset string) (path : string) :
  admitted seen path = eligible path && negb (bool_decide (path ∈ seen)).
Proof. reflexivity. Qed.

Lemma firstEntries_subseteq (entries : list (string * Timestamp)) :
  forall seen e, e ∈ firstEntries seen entries -> e ∈ entries.
Proof.
  induction entries as [|[path date] entries IH]; intros seen e; simpl; [done |].
  destruct (bool_decide (path ∈ seen)).
  - intros He. right. by eapply IH.
  - intros [-> | He]%elem_of_cons; [by left | right; by eapply IH].
Qed.

(** The walk as a function of the visited entries: the first
    occurrences of the eligible new paths, up to the cap. *)
Lemma scanEntries_spec (entries : list (string * Timestamp)) :
  forall st,
    (length (artifacts st) <= 5)%nat ->
    artifacts (scanEntries entries st)
    = artifacts st
      ++ map (fun e => artifactOf e.1 e.2)
           (take (5 - length (artifacts st))
                 (firstEntries (seenFiles st)
                               (List.filter (fun e => eligible e.1) entries))).
Proof.
  induction entries as [|[path date] entries IH]; intros st Hlen.
  - simpl. by rewrite take_nil, app_nil_r.
  - cbn [scanEntries]. destruct (capReached (artifacts st)) eqn:Hfull;
      unfold capReached in Hfull.
    + apply Nat.leb_le in Hfull.
      replace (5 - length (artifacts st))%nat with 0%nat by lia.
      by rewrite take_0, app_nil_r.
    + apply Nat.leb_gt in Hfull. rewrite admitted_eligible.
      cbn [List.filter fst]. destruct (eligible path); cbn [andb]; [| by apply IH].
      cbn [firstEntries]. destruct (bool_decide (path ∈ seenFiles st)); cbn [negb].
      * by apply IH.
      * rewrite IH by (cbn [artifacts]; rewrite length_app; simpl; lia).
        cbn [artifacts seenFiles]. rewrite length_app. cbn [length].
        destruct (5 - length (artifacts st))%nat as [|k] eqn:Hk; [lia |].
        replace (5 - (length (artifacts st) + 1))%nat with k by lia.
        cbn [take map fst snd]. by rewrite <- app_assoc.
Qed.

(** X7. The artifact list of a pass is a function of the files the walk
    visits: take the visited files whose path ends with .md and does not
    contain README, keep each path at its first visit, take the first
    five; the artifacts are these, in this order, each derived from its
    path and the date of its commit. *)
Theorem collectArtifacts_first_five (up : Upstream) (commits : list Commit) :
  collectArtifacts up commits
  = map (fun e => artifactOf e.1 e.2)
        (take 5 (firstEntries ∅ (List.filter (fun e => eligible e.1) (visited up commits)))).
Proof.
  unfold collectArtifacts. rewrite scanCommits_entries.
  rewrite scanEntries_spec by (simpl; lia). reflexivity.
Qed.

(** X8. Whatever the window holds, every artifact of a pass is a
    knowledge document: its path ends with .md and does not contain
    README; and its name and category are the ones derived from that
    path. *)
Theorem artifacts_are_documents (up : Upstream) (commits : list Commit) (a : Artifact) :
  a ∈ collectArtifacts up commits ->
  Js.endsWith ".md" (art_path a) = true
  /\ ~ Contains "README" (art_path a)
  /\ a = artifactOf (art_path a) (art_date a)
  /\ (art_path a, art_date a) ∈ visited up commits.
Proof.
  unfold collectArtifacts. rewrite scanCommits_entries.
  rewrite scanEntries_spec by (simpl; lia). simpl.
  intros Ha. apply list_elem_of_In, in_map_iff in Ha as ([path date] & <- & He).
  apply list_elem_of_In, subseteq_take, firstEntries_subseteq in He.
  apply list_elem_of_In, filter_In in He as [Hvisited Hel].
  unfold eligible in Hel. apply andb_true_iff in Hel as [Hmd Hidx].
  simpl in *. split; [done |].
  split; [by apply includes_false, negb_true_iff |].
  split; [done | by apply list_elem_of_In].
Qed.

(** X9. A commit whose detail request rejects contributes nothing: the
    artifact list is the one of the window without that commit, and the
    walk goes on with the commits after it. *)
Theorem unreadable_commit_contributes_nothing
    (up : Upstream) (earlier later : list Commit) (commit : Commit) (message : string) :
  commit_details up (commit_sha commit) = Rejected message ->
  collectArtifacts up (earlier ++ commit :: later) = collectArtifacts up (earlier ++ later).
Proof.
  intros Hdown. unfold collectArtifacts. rewrite !scanCommits_entries.
  rewrite !visited_app. change (commit :: later) with ([commit] ++ later).
  rewrite visited_app. unfold visited at 2. simpl.
  unfold changedFiles. by rewrite Hdown.
Qed.

End ArtifactList.

(** The window of three commits with the middle one unreadable lists
    what the newest and the oldest commit give. *)
Lemma unreadable_middle_commit :
  collectArtifacts middleCommitDown threeCommits
  = collectArtifacts middleCommitDown
      [ {| commit_sha := "c3"; commit_author_date := 3000 |};
        {| commit_sha := "c1"; commit_author_date := 1000 |} ].
Proof.
  exact (unreadable_commit_contributes_nothing middleCommitDown
           [ {| commit_sha := "c3"; commit_author_date := 3000 |} ]
           [ {| commit_sha := "c1"; commit_author_date := 1000 |} ]
           {| commit_sha := "c2"; commit_author_date := 2000 |}
           "GitHub API error: 500" eq_refl).
Defined.

(** The artifacts of the window of three commits are documents. *)
Lemma overlapping_artifacts_are_documents :
  Js.endsWith ".md" "concepts/graph.md" = true
  /\ ~ Contains "README" "concepts/graph.md".
Proof.
  destruct (artifacts_are_documents overlapping threeCommits
              (artifactOf "concepts/graph.md" 3000)) as (Hmd & Hidx & _).
  - vm_compute. apply list_elem_of_In. simpl. tauto.
  - by split.
Defined.

(** * Further properties: the counters *)

Section MoreCounters.

Variable up : Upstream.

(** The loop over the directories adds up the documents of the
    directories whose listing resolves. *)
Lemma artifactCount_loop (dirs : list ContentEntry) (n : nat) :
  fold_left
    (fun count dir =>
       match library_dir up (entry_name dir) with
       | Resolved files => (count + length (List.filter isMarkdown files))%nat
       | Rejected _ => count
       end)
    dirs n
  = (n + length (flat_map (documentsIn up) dirs))%nat.
Proof.
  revert n. induction dirs as [|dir dirs IH]; intros n; simpl; [lia |].
  rewrite IH, length_app. unfold documentsIn at 2.
  destruct (library_dir up (entry_name dir)); simpl; lia.
Qed.

(** X10. When the listing of the Library resolves, the artifact counter
    shows the number of .md entries found directly inside its visible
    directories (entries of type dir whose name does not start with a
    dot); a directory whose own listing rejects counts for nothing and
    never makes the counter unavailable. *)
Theorem artifact_counter (contents : list ContentEntry) :
  library_contents up = Resolved contents ->
  stat_artifacts (renderStats up)
  = Js.ofZ (Z.of_nat (length (flat_map (documentsIn up)
                                       (List.filter isArtifactDir contents))))
  /\ stat_artifacts (renderStats up) <> "-".
Proof.
  intros Hcontents. unfold renderStats, artifactsStat. cbn [stat_artifacts].
  rewrite Hcontents, artifactCount_loop. split; [done | apply ofZ_not_dash].
Qed.

(** X11. The artifact counter and the project counter show "-" exactly
    when their listing request rejects; the project counter otherwise
    shows the number of repositories whose name starts with Lab. *)
Theorem counters_unavailable_iff :
  (stat_artifacts (renderStats up) = "-"
   <-> exists message, library_contents up = Rejected message)
  /\ (stat_projects (renderStats up) = "-"
      <-> exists message, user_repos up = Rejected message)
  /\ (forall repos, user_repos up = Resolved repos ->
        stat_projects (renderStats up)
        = Js.ofZ (Z.of_nat (length (List.filter isLabRepo repos)))).
Proof.
  unfold renderStats, artifactsStat, projectsStat. cbn [stat_artifacts stat_projects].
  split; [| split].
  - destruct (library_contents up) as [contents|message].
    + split; [by intros ?%ofZ_not_dash | by intros [message [=]]].
    + split; [by exists message | done].
  - destruct (user_repos up) as [repos|message].
    + split; [by intros ?%ofZ_not_dash | by intros [message [=]]].
    + split; [by exists message | done].
  - by intros repos ->.
Qed.

End MoreCounters.

(** The small Library: two documents in notes; the hidden directory and
    the top-level file are not looked into, and the listing of concepts
    rejects. *)
Lemma artifact_counter_small_library :
  stat_artifacts (renderStats smallLibrary) = "2".
Proof.
  destruct (artifact_counter smallLibrary _ eq_refl) as [Hcount _].
  rewrite Hcount. reflexivity.
Defined.

(** * Further properties: the project list *)

Section ProjectListing.

Lemma drop_append (pat post : string) :
  Js.drop (String.length pat) (pat +:+ post) = post.
Proof. induction pat as [|c pat IH]; [by destruct post | exact IH]. Qed.

Lemma replace_unfold (pat rep s : string) :
  Js.replace pat rep s
  = if String.prefix pat s then rep +:+ Js.drop (String.length pat) s
    else match s with
         | EmptyString => EmptyString
         | String c s' => String c (Js.replace pat rep s')
         end.
Proof. by destruct s. Qed.

(** On a string that starts with the pattern, [replace] swaps that
    prefix. *)
Lemma replace_prefix (pat rep post : string) :
  Js.replace pat rep (pat +:+ post) = rep +:+ post.
Proof.
  rewrite replace_unfold.
  assert (String.prefix pat (pat +:+ post) = true) as ->
    by (apply prefix_append; by exists post).
  by rewrite drop_append.
Qed.

Lemma lab_name_round_trip (repo : Repo) :
  isLabRepo repo = true ->
  "Lab." +:+ Js.replace "Lab." "" (repo_name repo) = repo_name repo.
Proof.
  unfold isLabRepo, Js.startsWith. intros [post ->]%prefix_append.
  by rewrite replace_prefix.
Qed.

(** X12. When the repository listing resolves, [renderLabProjects] shows
    the no-projects marker exactly when no repository name starts with
    Lab.; otherwise it lists the first five such repositories in listing
    order, each under its name without the leading Lab., so that putting
    the prefix back gives the repository names. *)
Theorem lab_projects_listing
    (up : Upstream) (now : nat -> Timestamp) (repos : list Repo) :
  user_repos_updated up = Resolved repos ->
  (renderLabProjects up now = NoLabProjects <-> List.filter isLabRepo repos = [])
  /\ forall views,
       renderLabProjects up now = ProjectList views ->
       map (fun v => "Lab." +:+ pv_name v) views
       = take 5 (map repo_name (List.filter isLabRepo repos))
       /\ map pv_url views = take 5 (map repo_html_url (List.filter isLabRepo repos)).
Proof.
  intros Hrepos.
  assert (Hall : forall r, r ∈ labReposOf repos -> isLabRepo r = true).
  { intros r Hr. unfold labReposOf in Hr. apply subseteq_take in Hr.
    apply list_elem_of_In, filter_In in Hr. tauto. }
  assert (Hnil : labReposOf repos = [] <-> List.filter isLabRepo repos = []).
  { unfold labReposOf. by destruct (List.filter isLabRepo repos). }
  assert (Hnames : take 5 (map repo_name (List.filter isLabRepo repos))
                   = map repo_name (labReposOf repos))
    by (symmetry; apply (fmap_take repo_name)).
  assert (Hurls : take 5 (map repo_html_url (List.filter isLabRepo repos))
                  = map repo_html_url (labReposOf repos))
    by (symmetry; apply (fmap_take repo_html_url)).
  rewrite Hnames, Hurls. rewrite <- Hnil. clear Hnil Hnames Hurls.
  unfold renderLabProjects. rewrite Hrepos.
  destruct (labReposOf repos) as [|repo labRepos]; [by split |].
  split; [by split |].
  intros views [= <-]. rewrite collectProjects_map.
  generalize dependent (repo :: labRepos). clear. intros l Hall.
  change (map ?f ?x) with (f <$> x).
  rewrite !fmap_imap, !imap_fmap. split.
  - rewrite <- (imap_const repo_name l). apply imap_ext. intros i r Hr. simpl.
    apply lab_name_round_trip, Hall. by eapply list_elem_of_lookup_2.
  - rewrite <- (imap_const repo_html_url l). by apply imap_ext.
Qed.

End ProjectListing.

(** Lab.Chord.Widget is listed as Chord.Widget. *)
Lemma lab_projects_listing_widget :
  map (fun v => "Lab." +:+ pv_name v)
      [projectView 0 (projectOf (widgetOnly (Resolved [])) widget)]
  = ["Lab.Chord.Widget"].
Proof.
  exact (proj1 (proj2 (lab_projects_listing (widgetOnly (Resolved [])) (fun _ => 0)
                         [widget] eq_refl) _ eq_refl)).
Defined.

(** * Further properties: the sections of a pass *)

Section Sections.

Context {host : Js.Host}.

(** X13. A section that renders a list never renders an empty one (the
    empty cases have their own markers), and the artifact list and the
    project list hold at most five entries. *)
Theorem rendered_lists_bounds (up : Upstream) (now : nat -> Timestamp) :
  (forall views, renderTranscriptJobs up now = JobList views -> views <> [])
  /\ (forall views, renderLibraryArtifacts up now = ArtifactList views ->
        (1 <= length views <= 5)%nat)
  /\ (forall views, renderLabProjects up now = ProjectList views ->
        (1 <= length views <= 5)%nat).
Proof.
  split; [| split].
  - intros views. unfold renderTranscriptJobs.
    destruct (transcript_runs up) as [page|message]; [| discriminate].
    destruct (workflow_runs page) as [[|run rs]|]; try discriminate.
    by intros [= <-].
  - intros views. unfold renderLibraryArtifacts.
    destruct (library_commits up) as [[[|commit commits]|]|message]; try discriminate.
    pose proof (collectArtifacts_cap up (commit :: commits)) as Hcap.
    destruct (collectArtifacts up (commit :: commits)) as [|a arts]; [discriminate |].
    intros Hviews.
    assert (views = imap (fun i a0 => artifactView (now i) a0) (a :: arts)) as ->
      by congruence.
    rewrite length_imap. simpl in *. lia.
  - intros views. unfold renderLabProjects.
    destruct (user_repos_updated up) as [repos|message]; [| discriminate].
    assert (Hcap : (length (labReposOf repos) <= 5)%nat).
    { unfold labReposOf. rewrite length_take. lia. }
    destruct (labReposOf repos) as [|repo labRepos]; [discriminate |].
    intros Hviews.
    assert (views = imap (fun i p => projectView (now i) p)
                         (collectProjects up (repo :: labRepos))) as ->
      by congruence.
    rewrite length_imap, collectProjects_map, length_map.
    simpl in *. lia.
Qed.

Lemma statusOf_reads (up up' : Upstream) (repoName : string) :
  latest_runs up repoName = latest_runs up' repoName ->
  statusOf up repoName = statusOf up' repoName.
Proof. unfold statusOf. by intros ->. Qed.

Lemma documentsIn_reads (up up' : Upstream) (dir : ContentEntry) :
  library_dir up (entry_name dir) = library_dir up' (entry_name dir) ->
  documentsIn up dir = documentsIn up' dir.
Proof. unfold documentsIn. by intros ->. Qed.

Lemma visited_reads (up up' : Upstream) (commits : list Commit) :
  (forall sha, commit_details up sha = commit_details up' sha) ->
  visited up commits = visited up' commits.
Proof.
  intros Hsame. unfold visited. apply flat_map_ext. intros c.
  unfold changedFiles. by rewrite Hsame.
Qed.

Lemma scanCommits_reads (up up' : Upstream) (commits : list Commit) (st : Scan) :
  (forall sha, commit_details up sha = commit_details up' sha) ->
  scanCommits up commits st = scanCommits up' commits st.
Proof.
  intros Hsame. rewrite !scanCommits_entries. by rewrite (visited_reads up up').
Qed.

Lemma projectOf_reads (up up' : Upstream) (repo : Repo) :
  repo_issues up (repo_name repo) = repo_issues up' (repo_name repo) ->
  projectOf up repo = projectOf up' repo.
Proof. unfold projectOf. by intros ->. Qed.

(** X14. Each section of a pass reads its own endpoints only.  Two
    upstreams that answer alike for the latest runs of the three
    monitored repositories give the same status board, whatever else
    differs or fails; likewise the counters read the run count, the
    Library listings and the repository listing, the transcript jobs
    read the run list and the job details, the artifact list reads the
    commit list and the commit details, and the project list reads the
    updated-repository listing and the issue lookups. *)
Theorem sections_read_their_own_endpoints (up up' : Upstream) (clock : Clock) :
  ((forall repoName, repoName ∈ map snd REPOS ->
      latest_runs up repoName = latest_runs up' repoName) ->
   system_status (refreshAll up clock) = system_status (refreshAll up' clock))
  /\ (transcript_run_count up = transcript_run_count up' ->
      library_contents up = library_contents up' ->
      (forall dir, library_dir up dir = library_dir up' dir) ->
      user_repos up = user_repos up' ->
      stats (refreshAll up clock) = stats (refreshAll up' clock))
  /\ (transcript_runs up = transcript_runs up' ->
      (forall id, run_jobs up id = run_jobs up' id) ->
      transcript_jobs (refreshAll up clock) = transcript_jobs (refreshAll up' clock))
  /\ (library_commits up = library_commits up' ->
      (forall sha, commit_details up sha = commit_details up' sha) ->
      library_artifacts (refreshAll up clock) = library_artifacts (refreshAll up' clock))
  /\ (user_repos_updated up = user_repos_updated up' ->
      (forall name, repo_issues up name = repo_issues up' name) ->
      lab_projects (refreshAll up clock) = lab_projects (refreshAll up' clock)).
Proof.
  unfold refreshAll. cbn [system_status stats transcript_jobs library_artifacts lab_projects].
  split; [| split; [| split; [| split]]].
  - intros Hsame. rewrite !renderSystemStatus_map. apply map_ext_in.
    intros [key repoName] Hin. apply statusOf_reads, Hsame.
    apply list_elem_of_In. by apply (in_map snd) in Hin.
  - intros Hcount Hcontents Hdirs Hrepos.
    unfold renderStats, transcriptsStat, artifactsStat, projectsStat.
    rewrite Hcount, Hcontents, Hrepos. f_equal.
    destruct (library_contents up') as [contents|message]; [| done].
    rewrite !artifactCount_loop.
    by rewrite (flat_map_ext (documentsIn up) (documentsIn up'))
      by (intros dir; by apply documentsIn_reads).
  - intros Hruns Hjobs. unfold renderTranscriptJobs. rewrite Hruns.
    destruct (transcript_runs up') as [page|message]; [| done].
    destruct (workflow_runs page) as [[|run rs]|]; try done.
    f_equal. apply imap_ext. intros i r _. unfold jobView. by rewrite Hjobs.
  - intros Hcommits Hdetails. unfold renderLibraryArtifacts, collectArtifacts.
    rewrite Hcommits.
    destruct (library_commits up') as [[[|commit commits]|]|message]; try done.
    by rewrite (scanCommits_reads up up').
  - intros Hrepos Hissues. unfold renderLabProjects. rewrite Hrepos.
    destruct (user_repos_updated up') as [repos|message]; [| done].
    destruct (labReposOf repos) as [|repo labRepos]; [done |].
    rewrite !collectProjects_map. do 2 f_equal.
    apply map_ext. intros r. by apply projectOf_reads.
Qed.

End Sections.

(** A note two directories deep is named after its file. *)
Lemma artifact_name_nested :
  art_name (artifactOf "notes/2026/idea.md" 0) = "idea".
Proof.
  apply (proj2 (artifact_name_single_md 0 "idea"
                  ltac:(by apply includes_false) ltac:(by apply includes_false))
           "notes/2026").
Defined.

(** * Further properties: the vocabulary of the status board *)

Section BoardVocabulary.

(** Membership in a list given by its elements. *)
Ltac in_literal_list :=
  solve [apply list_elem_of_In; simpl; repeat first [left; reflexivity | right]].

Lemma latestRunStatus_range (latestRun : option Run) :
  latestRunStatus latestRun
  ∈ [ ("success", "Operational"); ("loading", "Running");
      ("error", "Failed"); ("warning", "Cancelled") ].
Proof.
  unfold latestRunStatus. destruct latestRun as [r|]; [| in_literal_list].
  destruct (Js.strictEq (run_status r) "in_progress" || Js.strictEq (run_status r) "queued");
    [in_literal_list |].
  destruct (Js.strictEq (run_conclusion r) "failure"); [in_literal_list |].
  destruct (Js.strictEq (run_conclusion r) "cancelled"); in_literal_list.
Qed.

(** X17. Every entry of the status board names a monitored repository
    and pairs its status with its text in one of five ways:
    success/Operational, loading/Running, error/Failed,
    warning/Cancelled or error/Unavailable; and Unavailable is shown
    only for a repository whose request rejected or answered without a
    run list, never for a run that was classified. *)
Theorem status_board_vocabulary (up : Upstream) (e : StatusEntry) :
  e ∈ renderSystemStatus up ->
  entry_repo e ∈ map snd REPOS
  /\ (entry_status e, entry_statusText e)
     ∈ [ ("success", "Operational"); ("loading", "Running");
         ("error", "Failed"); ("warning", "Cancelled"); ("error", "Unavailable") ]
  /\ (entry_statusText e = "Unavailable" <->
      (exists message, latest_runs up (entry_repo e) = Rejected message)
      \/ (exists page, latest_runs up (entry_repo e) = Resolved page
                       /\ workflow_runs page = None)).
Proof.
  rewrite renderSystemStatus_map.
  intros ([key repoName] & <- & Hin)%list_elem_of_In%in_map_iff.
  cbn [snd]. unfold statusOf.
  apply (in_map snd), list_elem_of_In in Hin.
  destruct (latest_runs up repoName) as [page|message] eqn:Hruns;
    [destruct (workflow_runs page) as [rs|] eqn:Hpage |]; cbn;
    rewrite ?Hruns; (split; [exact Hin |]).
  - pose proof (latestRunStatus_range (head rs)) as Hrange.
    destruct (latestRunStatus (head rs)) as [status text]. cbn.
    apply list_elem_of_In in Hrange. simpl in Hrange.
    split; [apply list_elem_of_In; simpl; tauto |]. split.
    + intros ->. intuition congruence.
    + intros [[message [=]] | (page' & [= <-] & Hnone)]. congruence.
  - split; [in_literal_list |].
    split; [| done]. intros _. right. by exists page.
  - split; [in_literal_list |].
    split; [| done]. intros _. left. by exists message.
Qed.

End BoardVocabulary.

(** The entry of Library on the board of [libraryDown]. *)
Lemma status_board_vocabulary_library :
  (exists message, latest_runs libraryDown "Legato.Library" = Rejected message)
  \/ (exists page, latest_runs libraryDown "Legato.Library" = Resolved page
                   /\ workflow_runs page = None).
Proof.
  destruct (status_board_vocabulary libraryDown
              {| entry_repo := "Legato.Library"; entry_status := "error";
                 entry_statusText := "Unavailable" |}) as (_ & _ & Hdown).
  - vm_compute. apply list_elem_of_In. simpl. tauto.
  - by apply Hdown.
Defined.

(** * Further properties: the saved organisation *)

Section SavedOrg.

(** X18. An organisation typed into the org input comes back on the next
    page load: after the change handler stored a non-empty value, the
    load handler puts that value into the input, whatever was stored
    before and whatever the input held; storing the empty string leaves
    the input of the next load as the page delivered it.  The change
    handler touches no other key of the storage, and the last stored
    value wins. *)
Theorem saved_org_round_trip
    (storage : gmap string string) (value orgInput : string) :
  loadSavedOrg (saveOrg storage value) orgInput
  = (if String.eqb value "" then orgInput else value)
  /\ (forall key, key <> "legato-org" -> saveOrg storage value !! key = storage !! key)
  /\ (forall earlier, saveOrg (saveOrg storage earlier) value = saveOrg storage value)
  /\ org (getConfig (loadSavedOrg (saveOrg storage value) "") "")
     = (if String.eqb value "" then "bobbyhiddn" else value).
Proof.
  unfold loadSavedOrg, saveOrg. rewrite lookup_insert_eq.
  split; [done |]. split; [| split].
  - intros key Hkey. by rewrite lookup_insert_ne.
  - intros earlier. apply insert_insert_eq.
  - unfold getConfig. cbn [org].
    destruct (String.eqb_spec value "") as [-> | Hne]; [done |].
    by apply String.eqb_neq in Hne as ->.
Qed.

End SavedOrg.
